(** * RC plane designer: geometry, aerodynamics and stability formulas

    A shallow embedding of the two calculators of the repository,
    [plane_designer.py] (interactive, prompts on standard input) and
    [test.py] (batch, reads a JSON configuration), with the properties
    their specification states about them.

    Numbers.  In the modules [Interactive] and [Batch] Python's [float] is
    the real numbers [R]: the formulas are in exact real arithmetic, and
    what Python turns into an exception (division by zero, [math.sqrt] of a
    negative number, a missing dictionary key, the end of the input) is an
    explicit error value.  Infinities, NaN, overflow and underflow have no
    counterpart there.  The geometry formulas are embedded twice more.  The
    module [Rounded] has them with every operation followed by a rounding
    function, of which only the accuracy on the range of the normal doubles
    is assumed.  The module [Binary64] has them on IEEE doubles themselves,
    where they can be evaluated on given inputs, overflow and underflow
    included.

    Output.  [print], the text, CSV and PDF exporters and the plots consume
    the computed values and never feed back into them; they are left out. *)

From Stdlib Require Import Floats.PrimFloat.
From Stdlib Require Import Reals Lra ZArith.
From stdpp Require Import gmap strings list.

Set Warnings "-inexact-float".

Open Scope R_scope.

(** ** Python exceptions and partial arithmetic *)

Module Py.

(** The exceptions the modelled code can raise. *)
Inductive exn : Type :=
  | ZeroDivisionError   (* float division by zero *)
  | ValueError          (* math.sqrt of a negative number *)
  | EOFError            (* input() at the end of standard input *)
  | KeyError            (* data[key] for a key that is absent *)
  | TypeError           (* arithmetic on a value that is not a number *)
  | OverflowError.      (* x ** 2 beyond the range of the doubles *)

(** The outcome of running a piece of Python: a value or a raised
    exception. *)
Inductive result (A : Type) : Type :=
  | Ok (a : A)
  | Raise (e : exn).
Arguments Ok {A} a.
Arguments Raise {A} e.

#[export] Instance result_ret : MRet result := fun A a => Ok a.

#[export] Instance result_bind : MBind result := fun A B k m =>
  match m with
  | Ok a => k a
  | Raise e => Raise e
  end.

#[export] Instance Rlt_decision (x y : R) : Decision (x < y) := Rlt_dec x y.
#[export] Instance Rgt_decision (x y : R) : Decision (x > y) := Rgt_dec x y.
#[export] Instance Req_decision : EqDecision R := Req_dec_T.

(** [x / y] on floats: raises [ZeroDivisionError] when [y] is zero. *)
Definition truediv (x y : R) : result R :=
  if decide (y = 0) then Raise ZeroDivisionError else Ok (x / y).

(** [math.sqrt x]: raises [ValueError] on a negative argument. *)
Definition math_sqrt (x : R) : result R :=
  if decide (x < 0) then Raise ValueError else Ok (sqrt x).

End Py.

Import Py.

Infix "//" := truediv (at level 40, left associativity) : R_scope.

(** ** The interactive calculator, [plane_designer.py] *)

Module Interactive.

(** One line typed at a prompt, after [.strip()], seen through [float()]:
    the empty string, a string [float] parses (with the number it denotes),
    or any other string, on which [float] raises [ValueError].  The
    spellings of infinity and NaN, which [float] also accepts, denote no
    real number and are not represented: a typed [nan] passes every range
    test of [get_float], so that what is proved here of the values a prompt
    returns is proved of the lines that denote a number. *)
Inductive line : Type :=
  | Empty
  | Numeric (r : R)
  | Garbage.

(** The part of a program run that matters to the calculations: the lines
    still to be read.  An interactive function consumes a prefix of them and
    returns its value with the rest. *)
Definition io (A : Type) : Type := list line -> result (A * list line).

#[export] Instance io_ret : MRet io := fun A a inp => Ok (a, inp).

#[export] Instance io_bind : MBind io := fun A B k m inp =>
  match m inp with
  | Ok (a, rest) => k a rest
  | Raise e => Raise e
  end.

(** Lifting of a pure, possibly failing, computation. *)
Definition lift {A : Type} (m : result A) : io A :=
  fun inp => match m with
             | Ok a => Ok (a, inp)
             | Raise e => Raise e
             end.

(** [float(default)] or [float(raw)] inside the [try] of [get_float];
    [None] stands for the [ValueError] branch.  The empty string takes the
    default when there is one; [float("")] raises otherwise. *)
Definition parse (default : option R) (raw : line) : option R :=
  match raw with
  | Empty => default
  | Numeric r => Some r
  | Garbage => None
  end.

(** The range test of [get_float]: the value is below [min_val] or above
    [max_val], each taken into account only when it is given. *)
Definition out_of_range (min_val max_val : option R) (val : R) : bool :=
  match min_val with
  | Some lo => bool_decide (val < lo)
  | None => false
  end
  ||
  match max_val with
  | Some hi => bool_decide (val > hi)
  | None => false
  end.

(** The values the range test lets through. *)
Definition in_range (min_val max_val : option R) (val : R) : Prop :=
  match min_val with Some lo => lo <= val | None => True end /\
  match max_val with Some hi => val <= hi | None => True end.

(** [get_float(prompt, min_val, max_val, default)]: the [while True] loop
    reads a line per iteration and goes round again on a parse failure or
    an out-of-range value; [input()] raises [EOFError] when no line is
    left. *)
Fixpoint get_float (min_val max_val default : option R) (inp : list line)
  {struct inp} : result (R * list line) :=
  match inp with
  | [] => Raise EOFError
  | raw :: rest =>
      match parse default raw with
      | None => get_float min_val max_val default rest
      | Some val =>
          if out_of_range min_val max_val val
          then get_float min_val max_val default rest
          else Ok (val, rest)
      end
  end.

(** [input(prompt)] where the text typed is not parsed. *)
Definition input : io line := fun inp =>
  match inp with
  | [] => Raise EOFError
  | raw :: rest => Ok (raw, rest)
  end.

(** The dictionary returned by [design_wing]. *)
Record Wing : Type := mkWing {
  span : R;
  AR : R;
  taper_ratio : R;
  wing_area : R;
  MAC : R;
  c_root : R;
  c_tip : R
}.

(** The dictionaries ["HS"] and ["VS"] returned by [design_empennage]; the
    control surface is the elevator for the first and the rudder for the
    second. *)
Record HStab : Type := mkHStab {
  hs_S : R;
  hs_span : R;
  hs_root : R;
  hs_tip : R;
  hs_Elevator : R;
  percent_hs : R;
  percent_elev : R
}.

Record VStab : Type := mkVStab {
  vs_S : R;
  vs_span : R;
  vs_root : R;
  vs_tip : R;
  vs_Rudder : R;
  percent_vs : R;
  percent_rudder : R
}.

Record Empennage : Type := mkEmpennage { HS : HStab; VS : VStab }.

(** The dictionary returned by [design_fuselage]. *)
Record Fuselage : Type := mkFuselage {
  length : R;
  height : R;
  percent_len : R;
  percent_h : R
}.

(** The dictionary returned by [cg_and_static_margin]. *)
Record CGMargin : Type := mkCGMargin {
  NP_percent : R;
  CG_percent : R;
  SM_percent : R;
  NP_mm : R;
  CG_mm : R
}.

(** [design_wing()]: three unbounded prompts, then the trapezoidal wing
    formulas.  Each division is Python's and can raise. *)
Definition design_wing : io Wing :=
  span ← get_float None None None;
  AR ← get_float None None None;
  taper_ratio ← get_float None None None;
  wing_area ← lift (span ^ 2 // AR);
  c_root ← lift ((2 * wing_area) // (span * (1 + taper_ratio)));
  let c_tip := taper_ratio * c_root in
  mac_l ← lift ((4.0 * wing_area) // (3.0 * span));
  mac_r ← lift ((1 + taper_ratio + taper_ratio ^ 2)
                // ((1 + taper_ratio) ^ 2));
  let MAC := mac_l * mac_r in
  mret (mkWing span AR taper_ratio wing_area MAC c_root c_tip).

(** [design_empennage(wing_area)]: the horizontal stabilizer, then the
    vertical one, each from bounded prompts. *)
Definition design_empennage (wing_area : R) : io Empennage :=
  percent_hs ← get_float (Some 18.0) (Some 20.0) None;
  let S_hs := (percent_hs / 100.0) * wing_area in
  AR_hs ← get_float (Some 1.0) (Some 20.0) None;
  taper_hs ← get_float (Some 0.05) (Some 1.5) None;
  b_hs ← lift (math_sqrt (AR_hs * S_hs));
  c_root_hs ← lift ((2 * S_hs) // (b_hs * (1 + taper_hs)));
  let c_tip_hs := taper_hs * c_root_hs in
  percent_elev ← get_float (Some 25.0) (Some 50.0) None;
  let S_elev := (percent_elev / 100.0) * S_hs in
  percent_vs ← get_float (Some 9.0) (Some 10.0) None;
  let S_vs := (percent_vs / 100.0) * wing_area in
  AR_vs ← get_float (Some 1.0) (Some 10.0) None;
  taper_vs ← get_float (Some 0.05) (Some 1.5) None;
  b_vs ← lift (math_sqrt (AR_vs * S_vs));
  c_root_vs ← lift ((2 * S_vs) // (b_vs * (1 + taper_vs)));
  let c_tip_vs := taper_vs * c_root_vs in
  percent_rudder ← get_float (Some 25.0) (Some 50.0) None;
  let S_rudder := (percent_rudder / 100.0) * S_vs in
  mret (mkEmpennage
          (mkHStab S_hs b_hs c_root_hs c_tip_hs S_elev percent_hs percent_elev)
          (mkVStab S_vs b_vs c_root_vs c_tip_vs S_rudder percent_vs
                   percent_rudder)).

(** [design_fuselage(span)]. *)
Definition design_fuselage (span : R) : io Fuselage :=
  percent_fus_len ← get_float (Some 60.0) (Some 75.0) None;
  let fus_length := (percent_fus_len / 100.0) * span in
  percent_fus_h ← get_float (Some 10.0) (Some 15.0) None;
  let fus_height := (percent_fus_h / 100.0) * fus_length in
  mret (mkFuselage fus_length fus_height percent_fus_len percent_fus_h).

(** [cg_and_static_margin(MAC_mm)]: the static margin is the difference of
    the two percentages read; the warnings printed on its value do not
    change what is returned. *)
Definition cg_and_static_margin (MAC_mm : R) : io CGMargin :=
  NP_percent ← get_float (Some 25.0) (Some 40.0) (Some 30.0);
  CG_percent ← get_float (Some 0.0) (Some 100.0) None;
  let SM := NP_percent - CG_percent in
  mret (mkCGMargin NP_percent CG_percent SM
          ((NP_percent / 100.0) * MAC_mm) ((CG_percent / 100.0) * MAC_mm)).

(** [airfoil_input()]: one line is read and only printed about. *)
Definition airfoil_input : io string :=
  calculate ← input;
  mret "hello worrld"%string.

(** The dictionary [results] built by [main]. *)
Record Results : Type := mkResults {
  r_Wing : Wing;
  r_Empennage : Empennage;
  r_Fuselage : Fuselage;
  r_CG_StaticMargin : CGMargin
}.

(** [main()], up to the exports. *)
Definition main : io Results :=
  airfoil ← airfoil_input;
  wing ← design_wing;
  emp ← design_empennage (wing_area wing);
  fus ← design_fuselage (span wing);
  cg ← cg_and_static_margin (MAC wing);
  mret (mkResults wing emp fus cg).

End Interactive.

(** ** The batch calculator, [test.py] *)

Module Batch.

(** What [json.load] can return. *)
#[warnings="-register-all"] Inductive json : Type :=
  | JNull
  | JBool (b : bool)
  | JInt (z : Z)
  | JFloat (r : R)
  | JStr (s : string)
  | JArray (l : list json)
  | JObject (o : list (string * json)).

(** The module-level dictionary [DEFAULTS], in the order it is written. *)
Definition DEFAULTS : list (string * json) :=
  [ ("weight"%string, JFloat 2.0);
    ("cl_max"%string, JFloat 1.4);
    ("taper_ratio"%string, JFloat 1.0);
    ("tail_taper_H"%string, JFloat 1.0);
    ("tail_taper_V"%string, JFloat 1.0);
    ("motor_kv"%string, JInt 1200);
    ("battery_voltage"%string, JFloat 11.1);
    ("propeller"%string, JStr "9x4.5") ].

(** One iteration of the loop of [load_input]:
    [if key not in data: data[key] = val]. *)
Definition fill_default (data : gmap string json) (kv : string * json)
  : gmap string json :=
  match data !! kv.1 with
  | None => <[kv.1 := kv.2]> data
  | Some _ => data
  end.

(** [load_input(json_file)], from the dictionary [json.load] parsed out of
    the file (a configuration file holds a JSON object): the loop over
    [DEFAULTS.items()]. *)
Definition load_input (data : gmap string json) : gmap string json :=
  foldl fill_default data DEFAULTS.

(** [data[key]]. *)
Definition getitem (data : gmap string json) (key : string) : result json :=
  match data !! key with
  | Some v => Ok v
  | None => Raise KeyError
  end.

(** A JSON value as an operand of float arithmetic: numbers stand for
    themselves, [True] and [False] for 1 and 0, and anything else raises
    [TypeError].  The literals [NaN] and [Infinity], which [json.load]
    accepts, and the integers too large to be converted to a double are not
    represented. *)
Definition as_number (v : json) : result R :=
  match v with
  | JBool b => Ok (if b then 1 else 0)
  | JInt z => Ok (IZR z)
  | JFloat r => Ok r
  | _ => Raise TypeError
  end.

(** [calc_wing_geometry(b, AR, taper_ratio)], returning
    [(S, MAC, C_root, C_tip)]. *)
Definition calc_wing_geometry (b AR taper_ratio : R) : result (R * R * R * R) :=
  S ← b ^ 2 // AR;
  MAC ← S // b;
  C_root ← (2 * S) // (b * (1 + taper_ratio));
  let C_tip := taper_ratio * C_root in
  mret (S, MAC, C_root, C_tip).

(** [calc_tail_geometry(S_tail, span_tail, taper_ratio)], returning
    [(C_root, C_tip)]. *)
Definition calc_tail_geometry (S_tail span_tail taper_ratio : R)
  : result (R * R) :=
  C_root ← (2 * S_tail) // (span_tail * (1 + taper_ratio));
  let C_tip := taper_ratio * C_root in
  mret (C_root, C_tip).

(** [calc_aerodynamics(rho, V, S, CL, CD0, AR, e)], returning [(L, D, CD)];
    [np.pi] is the constant pi. *)
Definition calc_aerodynamics (rho V S CL CD0 AR e : R) : result (R * R * R) :=
  let L := 0.5 * rho * V ^ 2 * S * CL in
  induced ← CL ^ 2 // (PI * e * AR);
  let CD := CD0 + induced in
  let D := 0.5 * rho * V ^ 2 * S * CD in
  mret (L, D, CD).

(** A [numpy.float64] result: [np.sqrt] answers [nan] on a negative
    argument instead of raising. *)
Inductive npfloat : Type :=
  | Finite (r : R)
  | NaN.

Definition np_sqrt (x : R) : npfloat :=
  if decide (x < 0) then NaN else Finite (sqrt x).

(** [stall_speed(W, rho, S, CLmax)].  The last parameter does not occur in
    the body. *)
Definition stall_speed (W rho S CLmax : R) : result npfloat :=
  q ← (2 * W) // (rho * S);
  mret (np_sqrt q).

(** [stability(MAC, x_cg, x_np)], returning [(SM, x_ac)]. *)
Definition stability (MAC x_cg x_np : R) : result (R * R) :=
  SM ← (x_np - x_cg) // MAC;
  let x_ac := 0.25 * MAC in
  mret (SM, x_ac).

(** [tail_areas(S)], returning [(SH, SV)]. *)
Definition tail_areas (S : R) : R * R :=
  let SH := 0.19 * S in
  let SV := 0.095 * S in
  (SH, SV).

(** [fuselage_dimensions(b)], returning [(Lf, Hf, Wf)]. *)
Definition fuselage_dimensions (b : R) : R * R * R :=
  let Lf := 0.675 * b in
  let Hf := 0.125 * Lf in
  let Wf := 0.2 * Hf in
  (Lf, Hf, Wf).

(** The number [main] computes with under [key]: the entry of the
    configuration completed by [load_input], taken as an operand of float
    arithmetic. *)
Definition config_number (input : gmap string json) (key : string) : result R :=
  getitem (load_input input) key ≫= as_number.

(** The local variables of [main] once the stability computation is done,
    in metres, newtons and metres per second. *)
Record Design : Type := mkDesign {
  S : R; MAC : R; C_root : R; C_tip : R;
  SH : R; SV : R;
  Lf : R; Hf : R; Wf : R;
  b_H : R; b_V : R;
  C_root_H : R; C_tip_H : R;
  C_root_V : R; C_tip_V : R;
  L : R; D : R; CD : R;
  Vstall : npfloat;
  SM : R; x_ac : R; x_cg : R; x_np : R
}.

(** [calc_wing_geometry(b, AR, taper_ratio)] as [main] calls it, with the
    taper ratio as the configuration gives it.  Its first two statements,
    [S = b**2 / AR] and [MAC = S / b], come before [1 + taper_ratio] is
    evaluated: a taper ratio that is not a number raises [TypeError] only
    when neither of them has raised. *)
Definition calc_wing_geometry_config (b AR : R) (taper_ratio : json)
  : result (R * R * R * R) :=
  match as_number taper_ratio with
  | Ok t => calc_wing_geometry b AR t
  | Raise e =>
      S ← b ^ 2 // AR;
      MAC ← S // b;
      Raise e
  end.

(** [main()] from the parsed configuration to the end of the stability
    computation.  No statement between [load_input] and the formulas tests
    a value.  A configuration entry that is not a number raises [TypeError]
    at the first arithmetic operation on it: at its lookup for the wingspan
    and the weight, inside [calc_wing_geometry] for the aspect ratio (its
    first operation) and the taper ratio (its third), and at the first
    operation of the function called for the others.  The conversion to
    millimetres, the rounding of the values for display and the exports
    that follow are not modelled. *)
Definition main (input : gmap string json) : result Design :=
  let data := load_input input in
  wingspan ← getitem data "wingspan" ≫= as_number;
  let b := wingspan / 1000 in
  AR_v ← getitem data "aspect_ratio";
  weight ← getitem data "weight" ≫= as_number;
  let W := weight * 9.81 in
  CLmax_v ← getitem data "cl_max";
  taper_ratio_v ← getitem data "taper_ratio";
  AR ← as_number AR_v;
  '(S, MAC, C_root, C_tip) ← calc_wing_geometry_config b AR taper_ratio_v;
  let '(SH, SV) := tail_areas S in
  let '(Lf, Hf, Wf) := fuselage_dimensions b in
  let b_H := 0.4 * b in
  let b_V := Hf in
  tail_taper_H ← getitem data "tail_taper_H" ≫= as_number;
  '(C_root_H, C_tip_H) ← calc_tail_geometry SH b_H tail_taper_H;
  tail_taper_V ← getitem data "tail_taper_V" ≫= as_number;
  '(C_root_V, C_tip_V) ← calc_tail_geometry SV b_V tail_taper_V;
  let rho := 1.225 in
  let V := 10 in
  let CD0 := 0.02 in
  let e := 0.8 in
  CLmax ← as_number CLmax_v;
  '(L, D, CD) ← calc_aerodynamics rho V S CLmax CD0 AR e;
  Vstall ← stall_speed W rho S CLmax;
  let x_cg := 0.3 * MAC in
  let x_np := 0.4 * MAC in
  '(SM, x_ac) ← stability MAC x_cg x_np;
  mret (mkDesign S MAC C_root C_tip SH SV Lf Hf Wf b_H b_V
          C_root_H C_tip_H C_root_V C_tip_V L D CD Vstall SM x_ac x_cg x_np).

End Batch.

(** ** The specification's tail contract *)

Module Spec.

(** [computeTail(tailAreaFraction, wingArea, aspectRatio, taperRatio)] as
    the specification words it: tailArea = fraction wingArea,
    span = sqrt (aspectRatio tailArea), and the chords by the trapezoid
    formulas of the wing.  Returns (tailArea, span, rootChord, tipChord). *)
Definition computeTail (fraction wingArea aspectRatio taperRatio : R)
  : R * R * R * R :=
  let tailArea := fraction * wingArea in
  let span := sqrt (aspectRatio * tailArea) in
  let rootChord := 2 * tailArea / (span * (1 + taperRatio)) in
  let tipChord := taperRatio * rootChord in
  (tailArea, span, rootChord, tipChord).

(** The two mean-aerodynamic-chord formulas the specification names, the
    trapezoidal one in its form in area and span and the simplified one,
    and its root chord. *)
Definition trapezoidalMAC (area span taperRatio : R) : R :=
  4 * area / (3 * span)
  * ((1 + taperRatio + taperRatio ^ 2) / (1 + taperRatio) ^ 2).

Definition simplifiedMAC (area span : R) : R := area / span.

Definition rootChord (area span taperRatio : R) : R :=
  2 * area / (span * (1 + taperRatio)).

End Spec.

(** ** Rounding *)

Module Roundoff.

(** The unit roundoff of IEEE double precision, and a range of magnitudes
    inside that of the normal doubles (from 2^-1022 up to, but excluding,
    2^1024). *)
Definition u : R := / 2 ^ 53.
Definition tiny : R := / 2 ^ 1022.
Definition huge : R := 2 ^ 1023.

(** What is assumed of the rounding [rnd] that ends every float operation:
    on that range the relative error is at most [u]. *)
Definition accurate (rnd : R -> R) : Prop :=
  forall x, tiny <= Rabs x <= huge -> Rabs (rnd x - x) <= u * Rabs x.

(** What is assumed of [x ** 2], which Python hands to the [pow] of the C
    library: on that range the relative error is at most [2 u], one unit in
    the last place. *)
Definition accurate_square (pow2 : R -> R) : Prop :=
  forall x, tiny <= x ^ 2 <= huge -> Rabs (pow2 x - x ^ 2) <= 2 * u * x ^ 2.

(** [x] approximates [y] with a relative error of at most [k] units in the
    last place, where [y] lies between the positive bounds [A] and [B]. *)
Definition near (k A B x y : R) : Prop :=
  0 <= k <= 1000 /\ 0 < A /\ A <= y <= B /\
  y * (1 - k * (2 * u)) <= x <= y * (1 + k * (2 * u)).

(** The magnitudes on which the rounded formulas are studied. *)
Definition moderate (x : R) : Prop := / 2 ^ 100 <= x <= 2 ^ 100.

(** Two functions within the assumed accuracy that are nowhere exact: each
    result is off by the whole of the error allowed. *)
Definition round_up (x : R) : R := x * (1 + u).

Definition square_low (x : R) : R := x ^ 2 * (1 - 2 * u).

End Roundoff.

(** ** The geometry formulas in rounded arithmetic *)

Module Rounded.

Section Arithmetic.

Variable rnd : R -> R.
Variable pow2 : R -> R.

(** [x / y] on floats. *)
Definition truediv (x y : R) : result R :=
  if decide (y = 0) then Raise ZeroDivisionError else Ok (rnd (x / y)).

(** [math.sqrt x]. *)
Definition math_sqrt (x : R) : result R :=
  if decide (x < 0) then Raise ValueError else Ok (rnd (sqrt x)).

(** [design_wing()] on the three numbers read at its prompts. *)
Definition design_wing (span AR taper_ratio : R) : result Interactive.Wing :=
  wing_area ← truediv (pow2 span) AR;
  c_root ← truediv (rnd (2 * wing_area)) (rnd (span * rnd (1 + taper_ratio)));
  let c_tip := rnd (taper_ratio * c_root) in
  mac_l ← truediv (rnd (4.0 * wing_area)) (rnd (3.0 * span));
  mac_r ← truediv (rnd (rnd (1 + taper_ratio) + pow2 taper_ratio))
                  (pow2 (rnd (1 + taper_ratio)));
  let MAC := rnd (mac_l * mac_r) in
  mret (Interactive.mkWing span AR taper_ratio wing_area MAC c_root c_tip).

(** [design_empennage(wing_area)] on the eight numbers read at its
    prompts. *)
Definition design_empennage
  (wing_area percent_hs AR_hs taper_hs percent_elev
   percent_vs AR_vs taper_vs percent_rudder : R)
  : result Interactive.Empennage :=
  let S_hs := rnd (rnd (percent_hs / 100.0) * wing_area) in
  b_hs ← math_sqrt (rnd (AR_hs * S_hs));
  c_root_hs ← truediv (rnd (2 * S_hs)) (rnd (b_hs * rnd (1 + taper_hs)));
  let c_tip_hs := rnd (taper_hs * c_root_hs) in
  let S_elev := rnd (rnd (percent_elev / 100.0) * S_hs) in
  let S_vs := rnd (rnd (percent_vs / 100.0) * wing_area) in
  b_vs ← math_sqrt (rnd (AR_vs * S_vs));
  c_root_vs ← truediv (rnd (2 * S_vs)) (rnd (b_vs * rnd (1 + taper_vs)));
  let c_tip_vs := rnd (taper_vs * c_root_vs) in
  let S_rudder := rnd (rnd (percent_rudder / 100.0) * S_vs) in
  mret (Interactive.mkEmpennage
          (Interactive.mkHStab S_hs b_hs c_root_hs c_tip_hs S_elev
             percent_hs percent_elev)
          (Interactive.mkVStab S_vs b_vs c_root_vs c_tip_vs S_rudder
             percent_vs percent_rudder)).

(** [calc_wing_geometry(b, AR, taper_ratio)]. *)
Definition calc_wing_geometry (b AR taper_ratio : R) : result (R * R * R * R) :=
  S ← truediv (pow2 b) AR;
  MAC ← truediv S b;
  C_root ← truediv (rnd (2 * S)) (rnd (b * rnd (1 + taper_ratio)));
  let C_tip := rnd (taper_ratio * C_root) in
  mret (S, MAC, C_root, C_tip).

(** [calc_tail_geometry(S_tail, span_tail, taper_ratio)]. *)
Definition calc_tail_geometry (S_tail span_tail taper_ratio : R)
  : result (R * R) :=
  C_root ← truediv (rnd (2 * S_tail)) (rnd (span_tail * rnd (1 + taper_ratio)));
  let C_tip := rnd (taper_ratio * C_root) in
  mret (C_root, C_tip).

(** The right-hand side of the specification's check
    area == span (rootChord + tipChord) / 2, evaluated on floats. *)
Definition chords_area (span rootChord tipChord : R) : R :=
  rnd (rnd (span * rnd (rootChord + tipChord)) / 2).

End Arithmetic.

End Rounded.

(** ** The geometry formulas on IEEE doubles *)

Module Binary64.

#[local] Open Scope float_scope.

(** [x / y] on floats: Python raises on a zero divisor, of either sign, and
    otherwise divides as the hardware does. *)
Definition truediv (x y : float) : result float :=
  if y =? 0 then Raise ZeroDivisionError else Ok (x / y).

(** [x ** 2]: the square of a finite number that exceeds the largest double
    raises [OverflowError]; a square too small for the doubles is 0. *)
Definition pow2 (x : float) : result float :=
  let y := x * x in
  if is_infinity y && negb (is_infinity x) then Raise OverflowError else Ok y.

(** [design_wing()] on the three numbers read at its prompts, returning
    [(wing_area, MAC, c_root, c_tip)]. *)
Definition design_wing (span AR taper_ratio : float)
  : result (float * float * float * float) :=
  sq ← pow2 span;
  wing_area ← truediv sq AR;
  c_root ← truediv (2 * wing_area) (span * (1 + taper_ratio));
  let c_tip := taper_ratio * c_root in
  mac_l ← truediv (4 * wing_area) (3 * span);
  t2 ← pow2 taper_ratio;
  d2 ← pow2 (1 + taper_ratio);
  mac_r ← truediv (1 + taper_ratio + t2) d2;
  let MAC := mac_l * mac_r in
  mret (wing_area, MAC, c_root, c_tip).

(** [calc_wing_geometry(b, AR, taper_ratio)]. *)
Definition calc_wing_geometry (b AR taper_ratio : float)
  : result (float * float * float * float) :=
  sq ← pow2 b;
  S ← truediv sq AR;
  MAC ← truediv S b;
  C_root ← truediv (2 * S) (b * (1 + taper_ratio));
  let C_tip := taper_ratio * C_root in
  mret (S, MAC, C_root, C_tip).

(** [calc_tail_geometry(S_tail, span_tail, taper_ratio)]. *)
Definition calc_tail_geometry (S_tail span_tail taper_ratio : float)
  : result (float * float) :=
  C_root ← truediv (2 * S_tail) (span_tail * (1 + taper_ratio));
  let C_tip := taper_ratio * C_root in
  mret (C_root, C_tip).

(** The specification's check of the chords against the area,
    span (rootChord + tipChord) / 2 within a relative tolerance of 1e-6. *)
Definition chords_area (span rootChord tipChord : float) : float :=
  span * (rootChord + tipChord) / 2.

Definition within_tolerance (x area : float) : bool :=
  abs (x - area) <=? 1e-6 * abs area.

End Binary64.

(** ** Further parts of the two programs *)

(** The unit helpers of [plane_designer.py]. *)
Module Units.

(** [mm_to_m(x_mm)]. *)
Definition mm_to_m (x_mm : R) : R := x_mm / 1000.0.

(** [mm2_to_m2(x_mm2)]. *)
Definition mm2_to_m2 (x_mm2 : R) : R := x_mm2 / 1000000.0.

End Units.

(** One turn of the loop of [get_float], seen from outside. *)
Module Prompt.

(** What [get_float] makes of one line: the number it returns on it, or
    [None] when the line is refused (it does not parse, or the number is
    out of range) and the prompt is shown again. *)
Definition answer (min_val max_val default : option R)
  (raw : Interactive.line) : option R :=
  match Interactive.parse default raw with
  | Some val =>
      if Interactive.out_of_range min_val max_val val then None else Some val
  | None => None
  end.

End Prompt.

(** The conversion of the results of the batch [main] to millimetres. *)
Module Report.

(** The local variables [S_mm2] to [x_np_mm] of [main], before they are
    rounded into the dictionary [results]. *)
Record Millimetres : Type := mkMillimetres {
  S_mm2 : R; MAC_mm : R; C_root_mm : R; C_tip_mm : R;
  Lf_mm : R; Hf_mm : R; Wf_mm : R;
  SH_mm2 : R; SV_mm2 : R;
  C_root_H_mm : R; C_tip_H_mm : R;
  C_root_V_mm : R; C_tip_V_mm : R;
  x_ac_mm : R; x_cg_mm : R; x_np_mm : R
}.

(** The block "Convert all lengths to mm" of [main]. *)
Definition to_mm (d : Batch.Design) : Millimetres :=
  let S_mm2 := Batch.S d * 1000000 in
  let MAC_mm := Batch.MAC d * 1000 in
  let C_root_mm := Batch.C_root d * 1000 in
  let C_tip_mm := Batch.C_tip d * 1000 in
  let Lf_mm := Batch.Lf d * 1000 in
  let Hf_mm := Batch.Hf d * 1000 in
  let Wf_mm := Batch.Wf d * 1000 in
  let SH_mm2 := Batch.SH d * 1000000 in
  let SV_mm2 := Batch.SV d * 1000000 in
  let C_root_H_mm := Batch.C_root_H d * 1000 in
  let C_tip_H_mm := Batch.C_tip_H d * 1000 in
  let C_root_V_mm := Batch.C_root_V d * 1000 in
  let C_tip_V_mm := Batch.C_tip_V d * 1000 in
  let x_ac_mm := Batch.x_ac d * 1000 in
  let x_cg_mm := Batch.x_cg d * 1000 in
  let x_np_mm := Batch.x_np d * 1000 in
  mkMillimetres S_mm2 MAC_mm C_root_mm C_tip_mm Lf_mm Hf_mm Wf_mm
    SH_mm2 SV_mm2 C_root_H_mm C_tip_H_mm C_root_V_mm C_tip_V_mm
    x_ac_mm x_cg_mm x_np_mm.

End Report.

(** The data series of the lift-curve plot of [test.py]. *)
Module Plots.

(** [np.linspace(start, stop, num)] for [num] above 1: [num] evenly spaced
    samples, the first at [start] and the last at [stop]. *)
Definition linspace (start stop : R) (num : nat) : list R :=
  let step := (stop - start) / INR (num - 1) in
  map (fun i => start + INR i * step) (seq 0 num).

(** [np.clip(x, a_min, a_max)] on one element: the minimum of [a_max] and
    of the maximum of [x] and [a_min]. *)
Definition clip (x a_min a_max : R) : R := Rmin a_max (Rmax x a_min).

(** [plot_lift_curve(CLmax)], up to the drawing: the angles of attack and
    the lift coefficients handed to [plt.plot]. *)
Definition plot_lift_curve (CLmax : R) : list R * list R :=
  let AoA := linspace (-5) 15 50 in
  let CL := map (fun a => 0.1 * a) AoA in
  let CL := map (fun c => clip c 0 CLmax) CL in
  (AoA, CL).

End Plots.

(** * Properties *)

Import Interactive.

(** ** Partial arithmetic *)

Lemma truediv_ok (x y : R) : y <> 0 -> x // y = Ok (x / y).
Proof.
  intros Hy. unfold truediv.
  destruct (decide (y = 0)) as [E | _]; [contradiction | reflexivity].
Qed.

Lemma truediv_zero (x y : R) : y = 0 -> x // y = Raise ZeroDivisionError.
Proof.
  intros Hy. unfold truediv.
  destruct (decide (y = 0)) as [_ | N]; [reflexivity | contradiction].
Qed.

Lemma truediv_inv (x y q : R) : x // y = Ok q -> y <> 0 /\ q = x / y.
Proof.
  unfold truediv. destruct (decide (y = 0)) as [E | N]; intros H.
  - discriminate H.
  - injection H as <-. split; [exact N | reflexivity].
Qed.

Lemma math_sqrt_ok (x : R) : 0 <= x -> math_sqrt x = Ok (sqrt x).
Proof.
  intros Hx. unfold math_sqrt.
  destruct (decide (x < 0)) as [L | _]; [lra | reflexivity].
Qed.

Lemma math_sqrt_inv (x s : R) : math_sqrt x = Ok s -> 0 <= x /\ s = sqrt x.
Proof.
  unfold math_sqrt. destruct (decide (x < 0)) as [L | N]; intros H.
  - discriminate H.
  - injection H as <-. split; [lra | reflexivity].
Qed.

(** ** Reading numbers *)

Lemma out_of_range_false (lo hi : option R) (v : R) :
  out_of_range lo hi v = false <-> in_range lo hi v.
Proof.
  unfold out_of_range, in_range. rewrite orb_false_iff.
  destruct lo as [lo |], hi as [hi |]; rewrite ?bool_decide_eq_false;
    intuition lra.
Qed.

(** A number in range typed at the prompt is returned at once. *)
Lemma get_float_numeric (lo hi d : option R) (r : R) (rest : list line) :
  in_range lo hi r -> get_float lo hi d (Numeric r :: rest) = Ok (r, rest).
Proof.
  intros Hr. apply out_of_range_false in Hr. simpl. rewrite Hr. reflexivity.
Qed.

(** An empty line takes the default when it is in range. *)
Lemma get_float_default (lo hi : option R) (d : R) (rest : list line) :
  in_range lo hi d -> get_float lo hi (Some d) (Empty :: rest) = Ok (d, rest).
Proof.
  intros Hr. apply out_of_range_false in Hr. simpl. rewrite Hr. reflexivity.
Qed.

(** A line that does not parse, or a number out of range, is passed over:
    the prompt is shown again and the next line read. *)
Lemma get_float_retry (lo hi d : option R) (raw : line) (rest : list line) :
  match parse d raw with
  | Some val => out_of_range lo hi val = true
  | None => True
  end ->
  get_float lo hi d (raw :: rest) = get_float lo hi d rest.
Proof.
  simpl. destruct (parse d raw) as [val |]; [| reflexivity].
  intros ->. reflexivity.
Qed.

(** Whatever is typed, a value [get_float] returns is in range. *)
Lemma get_float_in_range (lo hi d : option R) (inp rest : list line) (v : R) :
  get_float lo hi d inp = Ok (v, rest) -> in_range lo hi v.
Proof.
  induction inp as [| raw inp IH]; simpl; [discriminate |].
  destruct (parse d raw) as [val |]; [| exact IH].
  destruct (out_of_range lo hi val) eqn:E; [exact IH |].
  intros [= <- _]. apply out_of_range_false, E.
Qed.

(** ** Sequencing *)

Section Sequencing.
Context {A B : Type}.

Lemma result_bind_ok (m : result A) (k : A -> result B) (a : A) :
  m = Ok a -> m ≫= k = k a.
Proof.
  intros ->. reflexivity.
Qed.

Lemma result_bind_raise (m : result A) (k : A -> result B) (e : exn) :
  m = Raise e -> m ≫= k = Raise e.
Proof.
  intros ->. reflexivity.
Qed.

Lemma result_bind_inv (m : result A) (k : A -> result B) (b : B) :
  m ≫= k = Ok b -> exists a, m = Ok a /\ k a = Ok b.
Proof.
  destruct m as [a | e]; [| discriminate].
  intros H. exists a. split; [reflexivity | exact H].
Qed.

Lemma io_bind_ok (m : io A) (k : A -> io B) (inp mid : list line) (a : A) :
  m inp = Ok (a, mid) -> (m ≫= k) inp = k a mid.
Proof.
  intros H. unfold mbind, io_bind. rewrite H. reflexivity.
Qed.

Lemma io_bind_raise (m : io A) (k : A -> io B) (inp : list line) (e : exn) :
  m inp = Raise e -> (m ≫= k) inp = Raise e.
Proof.
  intros H. unfold mbind, io_bind. rewrite H. reflexivity.
Qed.

Lemma io_bind_inv (m : io A) (k : A -> io B) (inp rest : list line) (b : B) :
  (m ≫= k) inp = Ok (b, rest) ->
  exists a mid, m inp = Ok (a, mid) /\ k a mid = Ok (b, rest).
Proof.
  unfold mbind, io_bind. destruct (m inp) as [[a mid] | e]; [| discriminate].
  intros H. exists a, mid. split; [reflexivity | exact H].
Qed.

Lemma lift_bind_ok (m : result A) (k : A -> io B) (inp : list line) (a : A) :
  m = Ok a -> (lift m ≫= k) inp = k a inp.
Proof.
  intros ->. reflexivity.
Qed.

Lemma lift_bind_raise (m : result A) (k : A -> io B) (inp : list line)
  (e : exn) :
  m = Raise e -> (lift m ≫= k) inp = Raise e.
Proof.
  intros ->. reflexivity.
Qed.

Lemma lift_inv (m : result A) (inp rest : list line) (a : A) :
  lift m inp = Ok (a, rest) -> m = Ok a /\ rest = inp.
Proof.
  unfold lift. destruct m as [a' | e]; [| discriminate].
  intros [= <- <-]. split; reflexivity.
Qed.

End Sequencing.

(** One step of a run: a prompt answered by a number in range, a division
    by a number known to be non-zero, a square root of a number known not
    to be negative. *)
Ltac step_prompt :=
  erewrite io_bind_ok by (apply get_float_numeric; unfold in_range; simpl; lra).
Ltac step_div :=
  erewrite lift_bind_ok by (apply truediv_ok; assumption).
Ltac step_sqrt :=
  erewrite lift_bind_ok by (apply math_sqrt_ok; assumption).
Ltac step_pure_div :=
  erewrite result_bind_ok by (apply truediv_ok; assumption).

(** ** Rounded arithmetic *)

Import Roundoff.

(** Decimal literals, unfolded to quotients of integers for [field]. *)
Ltac decimals := cbv [Q2R QArith_base.Qnum QArith_base.Qden] in *.

Lemma Rabs_le_between (a b : R) : Rabs a <= b -> - b <= a <= b.
Proof. unfold Rabs. destruct (Rcase_abs a); lra. Qed.

Lemma u_pos : 0 < u.
Proof. unfold u. lra. Qed.

Lemma u_small : 1000 * 2001 * (2 * u) <= / 1000000.
Proof. unfold u. lra. Qed.

(** The rules of the error calculus: an exact value, then one rule per
    operation.  Each gives the error of the result from those of the
    operands, and bounds on the exact result from theirs. *)
Lemma near_exact (A B y : R) : 0 < A -> A <= y <= B -> near 0 A B y y.
Proof.
  intros HA Hy. unfold near. repeat split; try lra.
Qed.

Lemma near_spread (k A B x y : R) :
  near k A B x y -> 0 < y /\ y / 2 <= x <= 2 * y.
Proof.
  intros (Hk & HA & Hy & Hx).
  pose proof u_pos. pose proof u_small.
  assert (Ha : 0 <= k * (2 * u) <= / 2) by nra.
  assert (0 < y) by lra.
  split; [assumption |]. nra.
Qed.

Lemma near_pos (k A B x y : R) : near k A B x y -> 0 < x.
Proof. intros H. apply near_spread in H. lra. Qed.

Lemma near_weaken (k k' A A' B B' x y : R) :
  near k A B x y -> k <= k' <= 1000 -> 0 < A' <= A -> B <= B' ->
  near k' A' B' x y.
Proof.
  intros (Hk & HA & Hy & Hx) Hk' HA' HB'.
  pose proof u_pos.
  assert (0 < y) by lra.
  assert (0 <= y * ((k' - k) * (2 * u)))
    by (apply Rmult_le_pos; [lra | apply Rmult_le_pos; lra]).
  unfold near. repeat split; try lra.
Qed.

Lemma near_eq (k A B x y y' : R) : near k A B x y -> y = y' -> near k A B x y'.
Proof. intros H <-. exact H. Qed.

Lemma near_mul (k1 k2 A1 A2 B1 B2 x1 x2 y1 y2 : R) :
  near k1 A1 B1 x1 y1 -> near k2 A2 B2 x2 y2 -> k1 + k2 + 1 <= 1000 ->
  near (k1 + k2 + 1) (A1 * A2) (B1 * B2) (x1 * x2) (y1 * y2).
Proof.
  intros H1 H2 Hk.
  pose proof (near_spread _ _ _ _ _ H1) as (Hy1 & Hs1).
  pose proof (near_spread _ _ _ _ _ H2) as (Hy2 & Hs2).
  destruct H1 as (Hk1 & HA1 & HB1 & Hx1), H2 as (Hk2 & HA2 & HB2 & Hx2).
  pose proof u_pos. pose proof u_small.
  set (a := k1 * (2 * u)) in *. set (b := k2 * (2 * u)) in *.
  assert (Ha : 0 <= a <= / 2) by (unfold a; nra).
  assert (Hb : 0 <= b <= / 2) by (unfold b; nra).
  assert (Hab : a * b <= 2 * u).
  { unfold a, b.
    assert (k1 * k2 <= 1000 * 1000) by nra.
    assert (k1 * k2 * (2 * u) <= 1) by nra.
    replace (k1 * (2 * u) * (k2 * (2 * u))) with (k1 * k2 * (2 * u) * (2 * u)) by ring.
    nra. }
  assert (E : (k1 + k2 + 1) * (2 * u) = a + b + 2 * u) by (unfold a, b; ring).
  unfold near. rewrite E.
  split; [lra |]. split; [nra |]. split; [split; nra |].
  assert (0 < y1 * y2) by nra.
  split.
  - apply Rle_trans with (y1 * (1 - a) * (y2 * (1 - b))).
    + replace (y1 * (1 - a) * (y2 * (1 - b))) with (y1 * y2 * ((1 - a) * (1 - b))) by ring.
      apply Rmult_le_compat_l; [lra | nra].
    + apply Rmult_le_compat; nra.
  - apply Rle_trans with (y1 * (1 + a) * (y2 * (1 + b))).
    + apply Rmult_le_compat; nra.
    + replace (y1 * (1 + a) * (y2 * (1 + b))) with (y1 * y2 * ((1 + a) * (1 + b))) by ring.
      apply Rmult_le_compat_l; [lra | nra].
Qed.

Lemma near_div (k1 k2 A1 A2 B1 B2 x1 x2 y1 y2 : R) :
  near k1 A1 B1 x1 y1 -> near k2 A2 B2 x2 y2 -> k1 + k2 + 1 <= 1000 ->
  near (k1 + k2 + 1) (A1 / B2) (B1 / A2) (x1 / x2) (y1 / y2).
Proof.
  intros H1 H2 Hk.
  pose proof (near_spread _ _ _ _ _ H1) as (Hy1 & Hs1).
  pose proof (near_spread _ _ _ _ _ H2) as (Hy2 & Hs2).
  pose proof (near_pos _ _ _ _ _ H2) as Hx2p.
  destruct H1 as (Hk1 & HA1 & HB1 & Hx1), H2 as (Hk2 & HA2 & HB2 & Hx2).
  pose proof u_pos. pose proof u_small.
  set (a := k1 * (2 * u)) in *. set (b := k2 * (2 * u)) in *.
  assert (Ha : 0 <= a <= / 2) by (unfold a; nra).
  assert (Hb : 0 <= b <= / 2) by (unfold b; nra).
  assert (Hab : b * (a + b + 2 * u) <= 2 * u).
  { unfold a, b.
    assert (k2 * (k1 + k2 + 1) <= 1000 * 2001) by nra.
    assert (k2 * (k1 + k2 + 1) * (2 * u) <= 1) by nra.
    replace (k2 * (2 * u) * (k1 * (2 * u) + k2 * (2 * u) + 2 * u))
      with (k2 * (k1 + k2 + 1) * (2 * u) * (2 * u)) by ring.
    nra. }
  assert (E : (k1 + k2 + 1) * (2 * u) = a + b + 2 * u) by (unfold a, b; ring).
  assert (HB2' : 0 < B2) by lra.
  unfold near. rewrite E.
  split; [lra |].
  split; [apply Rdiv_lt_0_compat; lra |].
  split.
  { split.
    - apply Rle_trans with (A1 / y2).
      + unfold Rdiv. apply Rmult_le_compat_l; [lra |].
        apply Rinv_le_contravar; lra.
      + unfold Rdiv. apply Rmult_le_compat_r; [| lra].
        apply Rlt_le, Rinv_0_lt_compat; lra.
    - apply Rle_trans with (B1 / y2).
      + unfold Rdiv. apply Rmult_le_compat_r; [| lra].
        apply Rlt_le, Rinv_0_lt_compat; lra.
      + unfold Rdiv. apply Rmult_le_compat_l; [lra |].
        apply Rinv_le_contravar; lra. }
  assert (Hq : 0 < y1 / y2) by (apply Rdiv_lt_0_compat; lra).
  assert (Ey : y1 = y1 / y2 * y2) by (field; lra).
  split.
  - apply (Rmult_le_reg_r x2); [lra |].
    replace (x1 / x2 * x2) with x1 by (field; lra).
    apply Rle_trans with (y1 * (1 - a)); [| lra].
    apply Rle_trans with (y1 / y2 * (1 - (a + b + 2 * u)) * (y2 * (1 + b))).
    + destruct (Rle_dec 0 (1 - (a + b + 2 * u))) as [Hp | Hn].
      * apply Rmult_le_compat_l; [nra | lra].
      * assert (y1 / y2 * (1 - (a + b + 2 * u)) <= 0) by nra.
        assert (0 < x2) by lra. nra.
    + rewrite Ey at 2.
      replace (y1 / y2 * (1 - (a + b + 2 * u)) * (y2 * (1 + b)))
        with (y1 / y2 * y2 * ((1 - (a + b + 2 * u)) * (1 + b))) by ring.
      apply Rmult_le_compat_l; [nra | nra].
  - apply (Rmult_le_reg_r x2); [lra |].
    replace (x1 / x2 * x2) with x1 by (field; lra).
    apply Rle_trans with (y1 * (1 + a)); [lra |].
    apply Rle_trans with (y1 / y2 * (1 + (a + b + 2 * u)) * (y2 * (1 - b))).
    + rewrite Ey at 1.
      replace (y1 / y2 * (1 + (a + b + 2 * u)) * (y2 * (1 - b)))
        with (y1 / y2 * y2 * ((1 + (a + b + 2 * u)) * (1 - b))) by ring.
      apply Rmult_le_compat_l; [nra | nra].
    + apply Rmult_le_compat_l; [nra | lra].
Qed.

Lemma near_add (k1 k2 k A1 A2 B1 B2 x1 x2 y1 y2 : R) :
  near k1 A1 B1 x1 y1 -> near k2 A2 B2 x2 y2 ->
  k1 <= k -> k2 <= k -> k <= 1000 ->
  near k (A1 + A2) (B1 + B2) (x1 + x2) (y1 + y2).
Proof.
  intros (Hk1 & HA1 & HB1 & Hx1) (Hk2 & HA2 & HB2 & Hx2) H1 H2 Hk.
  pose proof u_pos.
  assert (0 < y1) by lra. assert (0 < y2) by lra.
  assert (0 <= y1 * ((k - k1) * (2 * u)))
    by (apply Rmult_le_pos; [lra | apply Rmult_le_pos; lra]).
  assert (0 <= y2 * ((k - k2) * (2 * u)))
    by (apply Rmult_le_pos; [lra | apply Rmult_le_pos; lra]).
  unfold near. repeat split; try lra.
Qed.

Lemma near_sqrt (k A B x y : R) :
  near k A B x y -> A <= 1 <= B -> near k A B (sqrt x) (sqrt y).
Proof.
  intros H HAB.
  pose proof (near_spread _ _ _ _ _ H) as (Hy & Hs).
  destruct H as (Hk & HA & HB & Hx).
  pose proof u_pos. pose proof u_small.
  set (a := k * (2 * u)) in *.
  assert (Ha : 0 <= a <= / 2) by (unfold a; nra).
  assert (Hsy : 0 < sqrt y) by (apply sqrt_lt_R0; lra).
  assert (Esy : sqrt y * sqrt y = y) by (apply sqrt_sqrt; lra).
  unfold near. fold a. split; [lra |]. split; [lra |].
  split.
  { destruct (Rle_dec y 1) as [Hle | Hgt].
    - assert (sqrt y <= 1).
      { rewrite <- sqrt_1. apply sqrt_le_1; lra. }
      assert (y <= sqrt y) by nra. lra.
    - assert (1 <= sqrt y).
      { rewrite <- sqrt_1. apply sqrt_le_1; lra. }
      assert (sqrt y <= y) by nra. lra. }
  split.
  - rewrite <- (sqrt_square (sqrt y * (1 - a))) by nra.
    apply sqrt_le_1; [nra | lra |].
    apply Rle_trans with (y * (1 - a)); [| lra].
    replace (sqrt y * (1 - a) * (sqrt y * (1 - a)))
      with (sqrt y * sqrt y * ((1 - a) * (1 - a))) by ring.
    rewrite Esy. apply Rmult_le_compat_l; [lra | nra].
  - rewrite <- (sqrt_square (sqrt y * (1 + a))) by nra.
    apply sqrt_le_1; [lra | nra |].
    apply Rle_trans with (y * (1 + a)); [lra |].
    replace (sqrt y * (1 + a) * (sqrt y * (1 + a)))
      with (sqrt y * sqrt y * ((1 + a) * (1 + a))) by ring.
    rewrite Esy. apply Rmult_le_compat_l; [lra | nra].
Qed.

Section RoundedArithmetic.
Variable rnd : R -> R.
Variable pow2 : R -> R.
Hypothesis Hrnd : accurate rnd.
Hypothesis Hpow : accurate_square pow2.

(** Rounding adds one unit, provided the exact value is a normal double
    in magnitude. *)
Lemma near_rnd (k A B z y : R) :
  near k A B z y -> k + 1 <= 1000 -> tiny <= A / 2 -> 2 * B <= huge ->
  near (k + 1) A B (rnd z) y.
Proof.
  intros H Hk Ht Hh.
  pose proof (near_spread _ _ _ _ _ H) as (Hy & Hs).
  destruct H as (Hk1 & HA & HB & Hx).
  pose proof u_pos. pose proof u_small.
  set (a := k * (2 * u)) in *.
  assert (Ha : 0 <= a <= / 2) by (unfold a; nra).
  assert (Hz : 0 < z) by lra.
  assert (Hr : Rabs (rnd z - z) <= u * z).
  { rewrite <- (Rabs_pos_eq z) at 3 by lra. apply Hrnd.
    rewrite Rabs_pos_eq by lra. lra. }
  apply Rabs_le_between in Hr.
  assert (E : (k + 1) * (2 * u) = a + 2 * u) by (unfold a; ring).
  unfold near. rewrite E.
  split; [lra |]. split; [lra |]. split; [lra |].
  split.
  - apply Rle_trans with (z * (1 - u)); [| lra].
    apply Rle_trans with (y * (1 - a) * (1 - u)).
    + rewrite Rmult_assoc. apply Rmult_le_compat_l; [lra | nra].
    + apply Rmult_le_compat_r; lra.
  - apply Rle_trans with (z * (1 + u)); [lra |].
    apply Rle_trans with (y * (1 + a) * (1 + u)).
    + apply Rmult_le_compat_r; lra.
    + rewrite Rmult_assoc. apply Rmult_le_compat_l; [lra | nra].
Qed.

Lemma near_pow2 (k A B x y : R) :
  near k A B x y -> k + k + 3 <= 1000 ->
  tiny <= A * A / 2 -> 2 * (B * B) <= huge ->
  near (k + k + 3) (A * A) (B * B) (pow2 x) (y ^ 2).
Proof.
  intros H Hk Ht Hh.
  assert (H2 : near (k + k + 1) (A * A) (B * B) (x * x) (y * y))
    by (apply near_mul; [exact H | exact H | lra]).
  pose proof (near_spread _ _ _ _ _ H2) as (Hy & Hs).
  destruct H2 as (Hk1 & HA & HB & Hx).
  pose proof u_pos. pose proof u_small.
  set (a := (k + k + 1) * (2 * u)) in *.
  assert (Ha : 0 <= a <= / 2) by (unfold a; nra).
  assert (Hr : Rabs (pow2 x - x ^ 2) <= 2 * u * x ^ 2).
  { apply Hpow. replace (x ^ 2) with (x * x) by ring. lra. }
  apply Rabs_le_between in Hr.
  replace (x ^ 2) with (x * x) in Hr by ring.
  replace (y ^ 2) with (y * y) by ring.
  assert (E : (k + k + 3) * (2 * u) = a + 2 * (2 * u)) by (unfold a; ring).
  unfold near. rewrite E.
  split; [lra |]. split; [lra |]. split; [lra |].
  split.
  - apply Rle_trans with (x * x * (1 - 2 * u)); [| lra].
    apply Rle_trans with (y * y * (1 - a) * (1 - 2 * u)).
    + replace (y * y * (1 - a) * (1 - 2 * u))
        with (y * y * ((1 - a) * (1 - 2 * u))) by ring.
      apply Rmult_le_compat_l; [lra | nra].
    + apply Rmult_le_compat_r; lra.
  - apply Rle_trans with (x * x * (1 + 2 * u)); [lra |].
    apply Rle_trans with (y * y * (1 + a) * (1 + 2 * u)).
    + apply Rmult_le_compat_r; lra.
    + replace (y * y * (1 + a) * (1 + 2 * u))
        with (y * y * ((1 + a) * (1 + 2 * u))) by ring.
      apply Rmult_le_compat_l; [lra | nra].
Qed.

End RoundedArithmetic.

Ltac magnitudes := unfold tiny, huge; lra.

Section RoundedFormulas.

Variable rnd : R -> R.
Variable pow2 : R -> R.
Hypothesis Hrnd : accurate rnd.
Hypothesis Hpow : accurate_square pow2.

Lemma rounded_truediv_ok (x y : R) :
  y <> 0 -> Rounded.truediv rnd x y = Ok (rnd (x / y)).
Proof.
  intros H. unfold Rounded.truediv. destruct (decide (y = 0)); [contradiction |].
  reflexivity.
Qed.

Lemma rounded_math_sqrt_ok (x : R) :
  0 <= x -> Rounded.math_sqrt rnd x = Ok (rnd (sqrt x)).
Proof.
  intros H. unfold Rounded.math_sqrt. destruct (decide (x < 0)); [lra |].
  reflexivity.
Qed.

(** From [near] to a bound on the relative error. *)
Lemma near_error (k A B x y : R) (c : R) :
  near k A B x y -> k * (2 * u) <= c -> Rabs (x - y) <= c * y.
Proof.
  intros H Hc.
  pose proof (near_spread _ _ _ _ _ H) as (Hy & _).
  destruct H as (Hk & _ & _ & Hx).
  assert (0 <= y * (c - k * (2 * u))) by (apply Rmult_le_pos; lra).
  apply Rabs_le. lra.
Qed.

(** The chords of a trapezoid, as all four geometry functions compute
    them, and the area they give back. *)
Lemma chords_accurate (area span taper : R) :
  / 2 ^ 350 <= area <= 2 ^ 350 ->
  / 2 ^ 200 <= span <= 2 ^ 200 ->
  moderate taper ->
  let root := rnd (rnd (2 * area) / rnd (span * rnd (1 + taper))) in
  let tip := rnd (taper * root) in
  rnd (span * rnd (1 + taper)) <> 0 /\
  near 7 (/ 2 ^ 1000) (2 ^ 1000) root (2 * area / (span * (1 + taper))) /\
  Rabs (Rounded.chords_area rnd span root tip - area) <= / 10 ^ 6 * area.
Proof.
  intros Ha Hs Ht root tip. unfold moderate in Ht.
  assert (N1 : near 0 1 1 1 1) by (apply near_exact; lra).
  assert (N2 : near 0 2 2 2 2) by (apply near_exact; lra).
  assert (Na : near 0 _ _ area area) by (apply near_exact; [| exact Ha]; lra).
  assert (Ns : near 0 _ _ span span) by (apply near_exact; [| exact Hs]; lra).
  assert (Nt : near 0 _ _ taper taper) by (apply near_exact; [| exact Ht]; lra).
  pose proof (near_add _ _ 0 _ _ _ _ _ _ _ _ N1 Nt
                ltac:(lra) ltac:(lra) ltac:(lra)) as Np.
  pose proof (near_rnd rnd Hrnd _ _ _ _ _ Np
                ltac:(lra) ltac:(magnitudes) ltac:(magnitudes)) as Np'.
  pose proof (near_mul _ _ _ _ _ _ _ _ _ _ Ns Np' ltac:(lra)) as Nd.
  pose proof (near_rnd rnd Hrnd _ _ _ _ _ Nd
                ltac:(lra) ltac:(magnitudes) ltac:(magnitudes)) as Nd'.
  pose proof (near_mul _ _ _ _ _ _ _ _ _ _ N2 Na ltac:(lra)) as Nn.
  pose proof (near_rnd rnd Hrnd _ _ _ _ _ Nn
                ltac:(lra) ltac:(magnitudes) ltac:(magnitudes)) as Nn'.
  pose proof (near_div _ _ _ _ _ _ _ _ _ _ Nn' Nd' ltac:(lra)) as Nq.
  pose proof (near_rnd rnd Hrnd _ _ _ _ _ Nq
                ltac:(lra) ltac:(magnitudes) ltac:(magnitudes)) as Nr.
  fold root in Nr.
  pose proof (near_mul _ _ _ _ _ _ _ _ _ _ Nt Nr ltac:(lra)) as Nm.
  pose proof (near_rnd rnd Hrnd _ _ _ _ _ Nm
                ltac:(lra) ltac:(magnitudes) ltac:(magnitudes)) as Ntip.
  fold tip in Ntip.
  pose proof (near_add _ _ (0 + (0 + 0 + 1 + 1 + (0 + (0 + 1) + 1 + 1) + 1 + 1) + 1 + 1)
                _ _ _ _ _ _ _ _ Nr Ntip
                ltac:(lra) ltac:(lra) ltac:(lra)) as Nsum.
  pose proof (near_rnd rnd Hrnd _ _ _ _ _ Nsum
                ltac:(lra) ltac:(magnitudes) ltac:(magnitudes)) as Nsum'.
  pose proof (near_mul _ _ _ _ _ _ _ _ _ _ Ns Nsum' ltac:(lra)) as Nprod.
  pose proof (near_rnd rnd Hrnd _ _ _ _ _ Nprod
                ltac:(lra) ltac:(magnitudes) ltac:(magnitudes)) as Nprod'.
  pose proof (near_div _ _ _ _ _ _ _ _ _ _ Nprod' N2 ltac:(lra)) as Nhalf.
  pose proof (near_rnd rnd Hrnd _ _ _ _ _ Nhalf
                ltac:(lra) ltac:(magnitudes) ltac:(magnitudes)) as Ncheck.
  split; [apply Rgt_not_eq, Rlt_gt, (near_pos _ _ _ _ _ Nd') |].
  split.
  - eapply near_weaken; [exact Nr | lra | magnitudes | magnitudes].
  - unfold Rounded.chords_area.
    eapply near_error.
    + eapply near_eq; [exact Ncheck |]. field. lra.
    + unfold u. lra.
Qed.

Lemma rounded_calc_tail_geometry_accurate (area span taper : R) :
  moderate area -> moderate span -> moderate taper ->
  exists root tip,
    Rounded.calc_tail_geometry rnd area span taper = Ok (root, tip) /\
    near 7 (/ 2 ^ 1000) (2 ^ 1000) root (2 * area / (span * (1 + taper))) /\
    tip = rnd (taper * root) /\
    Rabs (Rounded.chords_area rnd span root tip - area) <= / 10 ^ 6 * area.
Proof.
  intros Ha Hs Ht. unfold moderate in Ha, Hs.
  destruct (chords_accurate area span taper) as (Hd & Hr & Hc);
    [lra | lra | exact Ht |].
  do 2 eexists. split; [| split; [exact Hr | split; [reflexivity | exact Hc]]].
  unfold Rounded.calc_tail_geometry.
  rewrite rounded_truediv_ok by exact Hd. reflexivity.
Qed.

(** The wing area [span ** 2 / AR] as computed. *)
Lemma rounded_wing_area_accurate (span AR : R) :
  moderate span -> moderate AR ->
  near 5 (/ 2 ^ 300) (2 ^ 300) (rnd (pow2 span / AR)) (span ^ 2 / AR).
Proof.
  intros Hs Har. unfold moderate in Hs, Har.
  assert (Ns : near 0 _ _ span span) by (apply near_exact; [| exact Hs]; lra).
  assert (Nar : near 0 _ _ AR AR) by (apply near_exact; [| exact Har]; lra).
  pose proof (near_pow2 pow2 Hpow _ _ _ _ _ Ns
                ltac:(lra) ltac:(magnitudes) ltac:(magnitudes)) as Nsq.
  pose proof (near_div _ _ _ _ _ _ _ _ _ _ Nsq Nar ltac:(lra)) as Nq.
  pose proof (near_rnd rnd Hrnd _ _ _ _ _ Nq
                ltac:(lra) ltac:(magnitudes) ltac:(magnitudes)) as Narea.
  eapply near_weaken; [exact Narea | lra | magnitudes | magnitudes].
Qed.

(** The root chord from the computed wing area, against the root chord of
    the exact one. *)
Lemma rounded_root_chord_accurate (area ideal span taper : R) :
  near 5 (/ 2 ^ 300) (2 ^ 300) area ideal ->
  moderate span -> moderate taper ->
  near 12 (/ 2 ^ 1000) (2 ^ 1000)
    (rnd (rnd (2 * area) / rnd (span * rnd (1 + taper))))
    (Spec.rootChord ideal span taper).
Proof.
  intros Narea Hs Ht. unfold moderate in Hs, Ht.
  assert (N1 : near 0 1 1 1 1) by (apply near_exact; lra).
  assert (N2 : near 0 2 2 2 2) by (apply near_exact; lra).
  assert (Ns : near 0 _ _ span span) by (apply near_exact; [| exact Hs]; lra).
  assert (Nt : near 0 _ _ taper taper) by (apply near_exact; [| exact Ht]; lra).
  pose proof (near_add _ _ 0 _ _ _ _ _ _ _ _ N1 Nt
                ltac:(lra) ltac:(lra) ltac:(lra)) as Np.
  pose proof (near_rnd rnd Hrnd _ _ _ _ _ Np
                ltac:(lra) ltac:(magnitudes) ltac:(magnitudes)) as Np'.
  pose proof (near_mul _ _ _ _ _ _ _ _ _ _ Ns Np' ltac:(lra)) as Nd.
  pose proof (near_rnd rnd Hrnd _ _ _ _ _ Nd
                ltac:(lra) ltac:(magnitudes) ltac:(magnitudes)) as Nd'.
  pose proof (near_mul _ _ _ _ _ _ _ _ _ _ N2 Narea ltac:(lra)) as Nn.
  pose proof (near_rnd rnd Hrnd _ _ _ _ _ Nn
                ltac:(lra) ltac:(magnitudes) ltac:(magnitudes)) as Nn'.
  pose proof (near_div _ _ _ _ _ _ _ _ _ _ Nn' Nd' ltac:(lra)) as Nq.
  pose proof (near_rnd rnd Hrnd _ _ _ _ _ Nq
                ltac:(lra) ltac:(magnitudes) ltac:(magnitudes)) as Nr.
  eapply near_weaken; [exact Nr | lra | magnitudes | magnitudes].
Qed.

(** The mean aerodynamic chord of [design_wing] from the computed wing
    area, against the trapezoidal formula on the exact one. *)
Lemma rounded_trapezoidal_mac_accurate (area ideal span taper : R) :
  near 5 (/ 2 ^ 300) (2 ^ 300) area ideal ->
  moderate span -> moderate taper ->
  let mac_l := rnd (rnd (4.0 * area) / rnd (3.0 * span)) in
  let mac_r := rnd (rnd (rnd (1 + taper) + pow2 taper)
                    / pow2 (rnd (1 + taper))) in
  rnd (3.0 * span) <> 0 /\ pow2 (rnd (1 + taper)) <> 0 /\
  near 24 (/ 2 ^ 1000) (2 ^ 1000) (rnd (mac_l * mac_r))
    (Spec.trapezoidalMAC ideal span taper).
Proof.
  intros Narea Hs Ht mac_l mac_r. unfold moderate in Hs, Ht.
  assert (N1 : near 0 1 1 1 1) by (apply near_exact; lra).
  assert (N3 : near 0 3.0 3.0 3.0 3.0) by (apply near_exact; lra).
  assert (N4 : near 0 4.0 4.0 4.0 4.0) by (apply near_exact; lra).
  assert (Ns : near 0 _ _ span span) by (apply near_exact; [| exact Hs]; lra).
  assert (Nt : near 0 _ _ taper taper) by (apply near_exact; [| exact Ht]; lra).
  pose proof (near_mul _ _ _ _ _ _ _ _ _ _ N4 Narea ltac:(lra)) as Nn.
  pose proof (near_rnd rnd Hrnd _ _ _ _ _ Nn
                ltac:(lra) ltac:(magnitudes) ltac:(magnitudes)) as Nn'.
  pose proof (near_mul _ _ _ _ _ _ _ _ _ _ N3 Ns ltac:(lra)) as Nd.
  pose proof (near_rnd rnd Hrnd _ _ _ _ _ Nd
                ltac:(lra) ltac:(magnitudes) ltac:(magnitudes)) as Nd'.
  pose proof (near_div _ _ _ _ _ _ _ _ _ _ Nn' Nd' ltac:(lra)) as Nq.
  pose proof (near_rnd rnd Hrnd _ _ _ _ _ Nq
                ltac:(lra) ltac:(magnitudes) ltac:(magnitudes)) as Nl.
  fold mac_l in Nl.
  pose proof (near_add _ _ 0 _ _ _ _ _ _ _ _ N1 Nt
                ltac:(lra) ltac:(lra) ltac:(lra)) as Np.
  pose proof (near_rnd rnd Hrnd _ _ _ _ _ Np
                ltac:(lra) ltac:(magnitudes) ltac:(magnitudes)) as Np'.
  pose proof (near_pow2 pow2 Hpow _ _ _ _ _ Nt
                ltac:(lra) ltac:(magnitudes) ltac:(magnitudes)) as Nt2.
  pose proof (near_add _ _ (0 + 0 + 3) _ _ _ _ _ _ _ _ Np' Nt2
                ltac:(lra) ltac:(lra) ltac:(lra)) as Nnum.
  pose proof (near_rnd rnd Hrnd _ _ _ _ _ Nnum
                ltac:(lra) ltac:(magnitudes) ltac:(magnitudes)) as Nnum'.
  pose proof (near_pow2 pow2 Hpow _ _ _ _ _ Np'
                ltac:(lra) ltac:(magnitudes) ltac:(magnitudes)) as Nden.
  pose proof (near_div _ _ _ _ _ _ _ _ _ _ Nnum' Nden ltac:(lra)) as Nf.
  pose proof (near_rnd rnd Hrnd _ _ _ _ _ Nf
                ltac:(lra) ltac:(magnitudes) ltac:(magnitudes)) as Nr.
  fold mac_r in Nr.
  pose proof (near_mul _ _ _ _ _ _ _ _ _ _ Nl Nr ltac:(lra)) as Nm.
  pose proof (near_rnd rnd Hrnd _ _ _ _ _ Nm
                ltac:(lra) ltac:(magnitudes) ltac:(magnitudes)) as Nmac.
  split; [apply Rgt_not_eq, Rlt_gt, (near_pos _ _ _ _ _ Nd') |].
  split; [apply Rgt_not_eq, Rlt_gt, (near_pos _ _ _ _ _ Nden) |].
  eapply near_weaken;
    [eapply near_eq; [exact Nmac |] | lra | magnitudes | magnitudes].
  pose proof (near_spread _ _ _ _ _ Narea) as (Hi & _).
  unfold Spec.trapezoidalMAC. decimals. field. lra.
Qed.

(** [design_wing] in rounded arithmetic on moderate inputs: it returns,
    its values are those of the exact formulas to a few units in the last
    place, and its chords give its area back. *)
Lemma rounded_design_wing_accurate (span AR taper : R) :
  moderate span -> moderate AR -> moderate taper ->
  exists w,
    Rounded.design_wing rnd pow2 span AR taper = Ok w /\
    Interactive.span w = span /\
    near 5 (/ 2 ^ 300) (2 ^ 300) (wing_area w) (span ^ 2 / AR) /\
    near 12 (/ 2 ^ 1000) (2 ^ 1000) (c_root w)
      (Spec.rootChord (span ^ 2 / AR) span taper) /\
    near 24 (/ 2 ^ 1000) (2 ^ 1000) (MAC w)
      (Spec.trapezoidalMAC (span ^ 2 / AR) span taper) /\
    Rabs (Rounded.chords_area rnd span (c_root w) (c_tip w) - wing_area w)
    <= / 10 ^ 6 * wing_area w.
Proof.
  intros Hs Har Ht.
  pose proof (rounded_wing_area_accurate span AR Hs Har) as Narea.
  pose proof (near_spread _ _ _ _ _ Narea) as (Hi & Hsp).
  assert (Hi' : / 2 ^ 300 <= span ^ 2 / AR <= 2 ^ 300)
    by (destruct Narea as (_ & _ & H & _); exact H).
  destruct (chords_accurate (rnd (pow2 span / AR)) span taper)
    as (Hd & _ & Hc); [lra | unfold moderate in Hs; lra | exact Ht |].
  pose proof (rounded_root_chord_accurate _ _ span taper Narea Hs Ht) as Nroot.
  destruct (rounded_trapezoidal_mac_accurate _ _ span taper Narea Hs Ht)
    as (Hd3 & Hd4 & Nmac).
  assert (Har0 : AR <> 0) by (unfold moderate in Har; lra).
  eexists. split.
  - unfold Rounded.design_wing.
    rewrite (rounded_truediv_ok _ _ Har0). cbn [mbind result_bind].
    rewrite (rounded_truediv_ok _ _ Hd). cbn [mbind result_bind].
    rewrite (rounded_truediv_ok _ _ Hd3). cbn [mbind result_bind].
    rewrite (rounded_truediv_ok _ _ Hd4). cbn [mbind result_bind].
    reflexivity.
  - cbn [Interactive.span wing_area c_root c_tip MAC].
    split; [reflexivity |]. split; [exact Narea |].
    split; [exact Nroot |]. split; [exact Nmac | exact Hc].
Qed.

(** [calc_wing_geometry] in rounded arithmetic on moderate inputs. *)
Lemma rounded_calc_wing_geometry_accurate (b AR taper : R) :
  moderate b -> moderate AR -> moderate taper ->
  exists S MACb Cr Ct,
    Rounded.calc_wing_geometry rnd pow2 b AR taper = Ok (S, MACb, Cr, Ct) /\
    near 5 (/ 2 ^ 300) (2 ^ 300) S (b ^ 2 / AR) /\
    near 7 (/ 2 ^ 1000) (2 ^ 1000) MACb (Spec.simplifiedMAC (b ^ 2 / AR) b) /\
    near 12 (/ 2 ^ 1000) (2 ^ 1000) Cr (Spec.rootChord (b ^ 2 / AR) b taper) /\
    Rabs (Rounded.chords_area rnd b Cr Ct - S) <= / 10 ^ 6 * S.
Proof.
  intros Hs Har Ht.
  pose proof (rounded_wing_area_accurate b AR Hs Har) as Narea.
  pose proof (near_spread _ _ _ _ _ Narea) as (Hi & Hsp).
  assert (Hi' : / 2 ^ 300 <= b ^ 2 / AR <= 2 ^ 300)
    by (destruct Narea as (_ & _ & H & _); exact H).
  destruct (chords_accurate (rnd (pow2 b / AR)) b taper)
    as (Hd & _ & Hc); [lra | unfold moderate in Hs; lra | exact Ht |].
  pose proof (rounded_root_chord_accurate _ _ b taper Narea Hs Ht) as Nroot.
  assert (Nb : near 0 _ _ b b) by (apply near_exact; [| exact Hs]; lra).
  pose proof (near_div _ _ _ _ _ _ _ _ _ _ Narea Nb ltac:(lra)) as Nq.
  pose proof (near_rnd rnd Hrnd _ _ _ _ _ Nq
                ltac:(lra) ltac:(magnitudes) ltac:(magnitudes)) as Nmac.
  assert (Har0 : AR <> 0) by (unfold moderate in Har; lra).
  assert (Hb0 : b <> 0) by (unfold moderate in Hs; lra).
  do 4 eexists. split.
  - unfold Rounded.calc_wing_geometry.
    rewrite (rounded_truediv_ok _ _ Har0). cbn [mbind result_bind].
    rewrite (rounded_truediv_ok _ _ Hb0). cbn [mbind result_bind].
    rewrite (rounded_truediv_ok _ _ Hd). cbn [mbind result_bind].
    reflexivity.
  - split; [exact Narea |].
    split; [| split; [exact Nroot | exact Hc]].
    eapply near_weaken; [exact Nmac | lra | magnitudes | magnitudes].
Qed.

(** One stabilizer of [design_empennage]: its area from the percentage
    read, its span from the aspect ratio read, and its chords. *)
Lemma rounded_stabilizer_accurate (wing_area percent AR taper : R) :
  moderate wing_area ->
  9 <= percent <= 20 -> 1 <= AR <= 20 -> 0.05 <= taper <= 1.5 ->
  let S := rnd (rnd (percent / 100.0) * wing_area) in
  let b := rnd (sqrt (rnd (AR * S))) in
  let root := rnd (rnd (2 * S) / rnd (b * rnd (1 + taper))) in
  let tip := rnd (taper * root) in
  0 <= rnd (AR * S) /\ rnd (b * rnd (1 + taper)) <> 0 /\
  near 4 (/ 2 ^ 110) (2 ^ 110) S (percent / 100.0 * wing_area) /\
  Rabs (Rounded.chords_area rnd b root tip - S) <= / 10 ^ 6 * S.
Proof.
  intros Hw Hp Har Ht S b root tip. unfold moderate in Hw.
  assert (N100 : near 0 100.0 100.0 100.0 100.0) by (apply near_exact; lra).
  assert (Np : near 0 _ _ percent percent)
    by (apply near_exact; [| exact Hp]; lra).
  assert (Nar : near 0 _ _ AR AR) by (apply near_exact; [| exact Har]; lra).
  assert (Nw : near 0 _ _ wing_area wing_area)
    by (apply near_exact; [| exact Hw]; lra).
  pose proof (near_div _ _ _ _ _ _ _ _ _ _ Np N100 ltac:(lra)) as Nf.
  pose proof (near_rnd rnd Hrnd _ _ _ _ _ Nf
                ltac:(lra) ltac:(magnitudes) ltac:(magnitudes)) as Nf'.
  pose proof (near_mul _ _ _ _ _ _ _ _ _ _ Nf' Nw ltac:(lra)) as Nm.
  pose proof (near_rnd rnd Hrnd _ _ _ _ _ Nm
                ltac:(lra) ltac:(magnitudes) ltac:(magnitudes)) as NS.
  fold S in NS.
  pose proof (near_mul _ _ _ _ _ _ _ _ _ _ Nar NS ltac:(lra)) as Nx.
  pose proof (near_rnd rnd Hrnd _ _ _ _ _ Nx
                ltac:(lra) ltac:(magnitudes) ltac:(magnitudes)) as Nx'.
  pose proof (near_sqrt _ _ _ _ _ Nx' ltac:(lra)) as Nq.
  pose proof (near_rnd rnd Hrnd _ _ _ _ _ Nq
                ltac:(lra) ltac:(magnitudes) ltac:(magnitudes)) as Nb.
  fold b in Nb.
  pose proof (near_spread _ _ _ _ _ NS) as (HiS & HsS).
  pose proof (near_spread _ _ _ _ _ Nb) as (Hib & Hsb).
  assert (HrS : 9 / 100.0 * / 2 ^ 100 <= percent / 100.0 * wing_area
                <= 20 / 100.0 * 2 ^ 100)
    by (destruct NS as (_ & _ & H & _); exact H).
  assert (Hrb : 1 * (9 / 100.0 * / 2 ^ 100) <= sqrt (AR * (percent / 100.0 * wing_area))
                <= 20 * (20 / 100.0 * 2 ^ 100))
    by (destruct Nb as (_ & _ & H & _); exact H).
  destruct (chords_accurate S b taper) as (Hd & _ & Hc);
    [lra | lra | unfold moderate; lra |].
  split; [apply Rlt_le, (near_pos _ _ _ _ _ Nx') |].
  split; [exact Hd |].
  split; [| exact Hc].
  eapply near_weaken; [exact NS | lra | magnitudes | magnitudes].
Qed.

(** [design_empennage] in rounded arithmetic, on a moderate wing area and
    answers within the ranges of its prompts. *)
Lemma rounded_design_empennage_accurate
  (wing_area p_hs ar_hs t_hs p_el p_vs ar_vs t_vs p_rd : R) :
  moderate wing_area ->
  18 <= p_hs <= 20 -> 1 <= ar_hs <= 20 -> 0.05 <= t_hs <= 1.5 ->
  9 <= p_vs <= 10 -> 1 <= ar_vs <= 10 -> 0.05 <= t_vs <= 1.5 ->
  exists e,
    Rounded.design_empennage rnd wing_area p_hs ar_hs t_hs p_el
      p_vs ar_vs t_vs p_rd = Ok e /\
    near 4 (/ 2 ^ 110) (2 ^ 110) (hs_S (HS e)) (p_hs / 100.0 * wing_area) /\
    near 4 (/ 2 ^ 110) (2 ^ 110) (vs_S (VS e)) (p_vs / 100.0 * wing_area) /\
    Rabs (Rounded.chords_area rnd (hs_span (HS e)) (hs_root (HS e))
            (hs_tip (HS e)) - hs_S (HS e))
    <= / 10 ^ 6 * hs_S (HS e) /\
    Rabs (Rounded.chords_area rnd (vs_span (VS e)) (vs_root (VS e))
            (vs_tip (VS e)) - vs_S (VS e))
    <= / 10 ^ 6 * vs_S (VS e).
Proof.
  intros Hw H1 H2 H3 H5 H6 H7.
  destruct (rounded_stabilizer_accurate wing_area p_hs ar_hs t_hs)
    as (Hqh & Hdh & Hsh & Hch); [exact Hw | lra | lra | lra |].
  destruct (rounded_stabilizer_accurate wing_area p_vs ar_vs t_vs)
    as (Hqv & Hdv & Hsv & Hcv); [exact Hw | lra | lra | lra |].
  eexists. split.
  - unfold Rounded.design_empennage. cbv zeta.
    rewrite (rounded_math_sqrt_ok _ Hqh). cbn [mbind result_bind].
    rewrite (rounded_truediv_ok _ _ Hdh). cbn [mbind result_bind].
    rewrite (rounded_math_sqrt_ok _ Hqv). cbn [mbind result_bind].
    rewrite (rounded_truediv_ok _ _ Hdv). cbn [mbind result_bind].
    reflexivity.
  - cbn [HS VS hs_S hs_span hs_root hs_tip vs_S vs_span vs_root vs_tip].
    split; [exact Hsh |]. split; [exact Hsv |].
    split; [exact Hch | exact Hcv].
Qed.

End RoundedFormulas.

(** Two computed values near the same exact one are near each other. *)
Lemma near_each_other (k1 k2 A1 A2 B1 B2 x1 x2 y c : R) :
  near k1 A1 B1 x1 y -> near k2 A2 B2 x2 y ->
  (k1 + k2) * (2 * u) * (1001 / 1000) <= c ->
  Rabs (x1 - x2) <= c * x2.
Proof.
  intros H1 H2 Hc.
  pose proof (near_spread _ _ _ _ _ H2) as (Hy & _).
  pose proof (near_pos _ _ _ _ _ H2) as Hx2.
  destruct H1 as (Hk1 & _ & _ & Hx1), H2 as (Hk2 & _ & _ & Hx2').
  pose proof u_pos. pose proof u_small.
  assert (Hb : 0 <= k2 * (2 * u) <= / 1001) by nra.
  assert (Hy' : y <= 1001 / 1000 * x2) by nra.
  assert (Hd : Rabs (x1 - x2) <= (k1 + k2) * (2 * u) * y)
    by (apply Rabs_le; lra).
  apply Rle_trans with ((k1 + k2) * (2 * u) * y); [exact Hd |].
  apply Rle_trans with ((k1 + k2) * (2 * u) * (1001 / 1000 * x2)).
  - apply Rmult_le_compat_l; [| exact Hy'].
    apply Rmult_le_pos; lra.
  - replace ((k1 + k2) * (2 * u) * (1001 / 1000 * x2))
      with ((k1 + k2) * (2 * u) * (1001 / 1000) * x2) by ring.
    apply Rmult_le_compat_r; lra.
Qed.

Lemma round_up_accurate : accurate round_up.
Proof.
  intros x _. unfold round_up.
  replace (x * (1 + u) - x) with (u * x) by ring.
  rewrite Rabs_mult, (Rabs_pos_eq u) by (pose proof u_pos; lra). lra.
Qed.

Lemma square_low_accurate : accurate_square square_low.
Proof.
  intros x _. unfold square_low.
  replace (x ^ 2 * (1 - 2 * u) - x ^ 2) with (- (2 * u * x ^ 2)) by ring.
  rewrite Rabs_Ropp, Rabs_pos_eq; [lra |].
  pose proof u_pos. pose proof (pow2_ge_0 x).
  apply Rmult_le_pos; lra.
Qed.

(** ** The wing *)

Lemma design_wing_run (span AR taper : R) (rest : list line) :
  span <> 0 -> AR <> 0 -> 1 + taper <> 0 ->
  let area := span ^ 2 / AR in
  let root := 2 * area / (span * (1 + taper)) in
  design_wing (Numeric span :: Numeric AR :: Numeric taper :: rest) =
  Ok (mkWing span AR taper area
        (4.0 * area / (3.0 * span)
         * ((1 + taper + taper ^ 2) / (1 + taper) ^ 2))
        root (taper * root), rest).
Proof.
  intros Hs Ha Ht area root. unfold design_wing.
  assert (H1 : span * (1 + taper) <> 0)
    by (apply Rmult_integral_contrapositive_currified; assumption).
  assert (H2 : 3.0 * span <> 0) by lra.
  assert (H3 : (1 + taper) ^ 2 <> 0) by (apply pow_nonzero; assumption).
  do 3 step_prompt. do 4 step_div. reflexivity.
Qed.

Lemma calc_wing_geometry_run (b AR taper : R) :
  b <> 0 -> AR <> 0 -> 1 + taper <> 0 ->
  let area := b ^ 2 / AR in
  let root := 2 * area / (b * (1 + taper)) in
  Batch.calc_wing_geometry b AR taper = Ok (area, area / b, root, taper * root).
Proof.
  intros Hb Ha Ht area root. unfold Batch.calc_wing_geometry.
  assert (H1 : b * (1 + taper) <> 0)
    by (apply Rmult_integral_contrapositive_currified; assumption).
  do 3 step_pure_div. reflexivity.
Qed.

(** C2.  For a positive span, aspect ratio and taper ratio both wing
    computations return area = span^2 / aspectRatio,
    rootChord = 2 area / (span (1 + taperRatio)) and
    tipChord = taperRatio rootChord; for span 1200, aspect ratio 8 and
    taper ratio 0.6 they return area 180000, root chord 187.5 and tip chord
    112.5. *)
Theorem wing_geometry_values :
  (forall (span AR taper : R) (rest : list line),
      0 < span -> 0 < AR -> 0 < taper ->
      let area := span ^ 2 / AR in
      let rootChord := 2 * area / (span * (1 + taper)) in
      let tipChord := taper * rootChord in
      (exists w,
          design_wing (Numeric span :: Numeric AR :: Numeric taper :: rest)
          = Ok (w, rest) /\
          wing_area w = area /\ c_root w = rootChord /\ c_tip w = tipChord) /\
      (exists mac,
          Batch.calc_wing_geometry span AR taper
          = Ok (area, mac, rootChord, tipChord))) /\
  design_wing [Numeric 1200; Numeric 8; Numeric 0.6]
  = Ok (mkWing 1200 8 0.6 180000 153.125 187.5 112.5, []) /\
  Batch.calc_wing_geometry 1200 8 0.6 = Ok (180000, 150, 187.5, 112.5).
Proof.
  split; [| split].
  - intros span AR taper rest Hs Ha Ht area rootChord tipChord. split.
    + eexists. split; [apply design_wing_run; lra |]. repeat split.
    + eexists. apply calc_wing_geometry_run; lra.
  - rewrite design_wing_run by lra. do 2 f_equal. f_equal; lra.
  - rewrite calc_wing_geometry_run by lra. do 4 f_equal; lra.
Qed.

Lemma wing_geometry_values_witness :
  (0 < 1200 /\ 0 < 8 /\ 0 < 0.6) /\
  exists mac,
    Batch.calc_wing_geometry 1200 8 0.6
    = Ok (1200 ^ 2 / 8, mac, 2 * (1200 ^ 2 / 8) / (1200 * (1 + 0.6)),
          0.6 * (2 * (1200 ^ 2 / 8) / (1200 * (1 + 0.6)))).
Proof.
  split; [lra |].
  apply (proj1 wing_geometry_values 1200 8 0.6 []); lra.
Defined.

(** The two mean-aerodynamic-chord formulas, side by side: with [q] the
    mean geometric chord, the trapezoidal value is [q] scaled by
    4 (1 + t + t^2) / (3 (1 + t)^2), and the scaling is 1 only at [t = 1]. *)
Lemma trapezoid_scaling_one (q t : R) :
  0 < q -> 0 < t ->
  (4.0 * q / 3.0 * ((1 + t + t ^ 2) / (1 + t) ^ 2) = q <-> t = 1).
Proof.
  intros Hq Ht.
  assert (Hd : (1 + t) ^ 2 <> 0) by (apply pow_nonzero; lra).
  split.
  - intros H.
    set (x := (1 + t + t ^ 2) / (1 + t) ^ 2) in H.
    assert (Hx : x * (1 + t) ^ 2 = 1 + t + t ^ 2) by (unfold x; field; lra).
    assert (E : x = 3 / 4) by nra.
    rewrite E in Hx. nra.
  - intros ->. lra.
Qed.

(** The two formulas of the specification, compared as real numbers. *)
Lemma spec_mac_formulas (area span taper : R) :
  0 < area -> 0 < span -> 0 < taper ->
  (Spec.trapezoidalMAC area span taper = Spec.simplifiedMAC area span
   <-> taper = 1) /\
  (taper = 1 ->
   Spec.trapezoidalMAC area span taper = Spec.rootChord area span taper /\
   Spec.simplifiedMAC area span = Spec.rootChord area span taper).
Proof.
  intros Ha Hs Ht.
  assert (Hq : 0 < area / span) by (apply Rdiv_lt_0_compat; lra).
  unfold Spec.trapezoidalMAC, Spec.simplifiedMAC, Spec.rootChord.
  split.
  - rewrite <- (trapezoid_scaling_one (area / span) taper Hq Ht).
    assert (E : 4 * area / (3 * span) = 4.0 * (area / span) / 3.0)
      by (decimals; field; lra).
    rewrite E. reflexivity.
  - intros ->. split; field; lra.
Qed.

(** C1 as stated fails in the arithmetic the programs run in.  On span
    1200, aspect ratio 9 and taper ratio 1, [design_wing] returns a mean
    aerodynamic chord of 133.33333333333331, which is neither its root
    chord nor the mean aerodynamic chord of [calc_wing_geometry], both
    133.33333333333334.  On span 1200, aspect ratio 8 and taper ratio
    1.00000001, which is not 1, the two mean aerodynamic chords are both
    150. *)
Lemma mac_equalities_fail_in_doubles :
  Binary64.design_wing 1200 9 1
  = Ok (160000, 133.33333333333331, 133.33333333333334,
        133.33333333333334)%float /\
  Binary64.calc_wing_geometry 1200 9 1
  = Ok (160000, 133.33333333333334, 133.33333333333334,
        133.33333333333334)%float /\
  (133.33333333333331 =? 133.33333333333334)%float = false /\
  Binary64.design_wing 1200 8 1.00000001
  = Ok (180000, 150, 149.99999925, 150.00000075)%float /\
  Binary64.calc_wing_geometry 1200 8 1.00000001
  = Ok (180000, 150, 149.99999925, 150.00000075)%float /\
  (1.00000001 =? 1)%float = false.
Proof.
  repeat split; vm_compute; reflexivity.
Qed.

(** C1, as the code has it.  For a positive span, aspect ratio and taper
    ratio, [design_wing] returns the value of the trapezoidal formula and
    [calc_wing_geometry] that of area / span, and each returns the root
    chord 2 area / (span (1 + taper)).  As real numbers the two formulas are
    equal if and only if the taper ratio is 1, and at taper ratio 1 each
    equals the root chord.  In floating point (every operation accurate to
    the unit roundoff, inputs between 2^-100 and 2^100) the two values
    computed are within 1e-14, relatively, of their formulas; at taper
    ratio 1 they are within 1e-14 of each other and of the root chords
    computed, and need not be equal. *)
Theorem mac_formulas_agree_iff_rectangular :
  (forall (span AR taper : R) (rest : list line),
      0 < span -> 0 < AR -> 0 < taper ->
      exists (w : Wing) (S MACb Cr Ct : R),
        design_wing (Numeric span :: Numeric AR :: Numeric taper :: rest)
        = Ok (w, rest) /\
        Batch.calc_wing_geometry span AR taper = Ok (S, MACb, Cr, Ct) /\
        wing_area w = span ^ 2 / AR /\ S = span ^ 2 / AR /\
        MAC w = Spec.trapezoidalMAC (span ^ 2 / AR) span taper /\
        MACb = Spec.simplifiedMAC (span ^ 2 / AR) span /\
        c_root w = Spec.rootChord (span ^ 2 / AR) span taper /\
        Cr = Spec.rootChord (span ^ 2 / AR) span taper) /\
  (forall area span taper : R,
      0 < area -> 0 < span -> 0 < taper ->
      (Spec.trapezoidalMAC area span taper = Spec.simplifiedMAC area span
       <-> taper = 1) /\
      (taper = 1 ->
       Spec.trapezoidalMAC area span taper = Spec.rootChord area span taper /\
       Spec.simplifiedMAC area span = Spec.rootChord area span taper)) /\
  (forall rnd pow2 : R -> R,
      accurate rnd -> accurate_square pow2 ->
      forall span AR taper : R,
        moderate span -> moderate AR -> moderate taper ->
        exists (w : Wing) (S MACb Cr Ct : R),
          Rounded.design_wing rnd pow2 span AR taper = Ok w /\
          Rounded.calc_wing_geometry rnd pow2 span AR taper
          = Ok (S, MACb, Cr, Ct) /\
          Rabs (MAC w - Spec.trapezoidalMAC (span ^ 2 / AR) span taper)
          <= / 10 ^ 14 * Spec.trapezoidalMAC (span ^ 2 / AR) span taper /\
          Rabs (MACb - Spec.simplifiedMAC (span ^ 2 / AR) span)
          <= / 10 ^ 14 * Spec.simplifiedMAC (span ^ 2 / AR) span /\
          (taper = 1 ->
           Rabs (MAC w - MACb) <= / 10 ^ 14 * MACb /\
           Rabs (MAC w - c_root w) <= / 10 ^ 14 * c_root w /\
           Rabs (MACb - Cr) <= / 10 ^ 14 * Cr)).
Proof.
  split; [| split].
  - intros span AR taper rest Hs Ha Ht.
    do 5 eexists.
    split; [apply design_wing_run; lra |].
    split; [apply calc_wing_geometry_run; lra |].
    cbn [MAC wing_area c_root].
    unfold Spec.trapezoidalMAC, Spec.simplifiedMAC, Spec.rootChord.
    repeat split; decimals; field; lra.
  - exact spec_mac_formulas.
  - intros rnd pow2 Hrnd Hpow span AR taper Hs Ha Ht.
    destruct (rounded_design_wing_accurate rnd pow2 Hrnd Hpow span AR taper
                Hs Ha Ht) as (w & Hw & _ & Nwa & Nwr & Nwm & _).
    destruct (rounded_calc_wing_geometry_accurate rnd pow2 Hrnd Hpow
                span AR taper Hs Ha Ht)
      as (S & MACb & Cr & Ct & Hb & Nba & Nbm & Nbr & _).
    exists w, S, MACb, Cr, Ct.
    split; [exact Hw |]. split; [exact Hb |].
    split; [eapply near_error; [exact Nwm | unfold u; lra] |].
    split; [eapply near_error; [exact Nbm | unfold u; lra] |].
    intros ->.
    assert (Hi : 0 < span ^ 2 / AR)
      by (pose proof (near_spread _ _ _ _ _ Nwa); tauto).
    assert (Hsp : 0 < span) by (unfold moderate in Hs; lra).
    destruct (spec_mac_formulas (span ^ 2 / AR) span 1 Hi Hsp ltac:(lra))
      as (Eq & Er).
    destruct (Er eq_refl) as (E1 & E2).
    assert (E0 : Spec.trapezoidalMAC (span ^ 2 / AR) span 1
                 = Spec.simplifiedMAC (span ^ 2 / AR) span)
      by (apply Eq; reflexivity).
    split; [| split].
    + rewrite E0 in Nwm.
      eapply near_each_other; [exact Nwm | exact Nbm | unfold u; lra].
    + rewrite E1 in Nwm.
      eapply near_each_other; [exact Nwm | exact Nwr | unfold u; lra].
    + rewrite E2 in Nbm.
      eapply near_each_other; [exact Nbm | exact Nbr | unfold u; lra].
Qed.

Lemma mac_formulas_agree_iff_rectangular_witness :
  (accurate round_up /\ accurate_square square_low /\
   moderate 1200 /\ moderate 9 /\ moderate 1) /\
  exists (w : Wing) (S MACb Cr Ct : R),
    Rounded.design_wing round_up square_low 1200 9 1 = Ok w /\
    Rounded.calc_wing_geometry round_up square_low 1200 9 1
    = Ok (S, MACb, Cr, Ct) /\
    Rabs (MAC w - Spec.trapezoidalMAC (1200 ^ 2 / 9) 1200 1)
    <= / 10 ^ 14 * Spec.trapezoidalMAC (1200 ^ 2 / 9) 1200 1 /\
    Rabs (MACb - Spec.simplifiedMAC (1200 ^ 2 / 9) 1200)
    <= / 10 ^ 14 * Spec.simplifiedMAC (1200 ^ 2 / 9) 1200 /\
    (1 = 1 ->
     Rabs (MAC w - MACb) <= / 10 ^ 14 * MACb /\
     Rabs (MAC w - c_root w) <= / 10 ^ 14 * c_root w /\
     Rabs (MACb - Cr) <= / 10 ^ 14 * Cr).
Proof.
  assert (H1 : moderate 1200) by (unfold moderate; lra).
  assert (H2 : moderate 9) by (unfold moderate; lra).
  assert (H3 : moderate 1) by (unfold moderate; lra).
  split.
  { split; [exact round_up_accurate |].
    split; [exact square_low_accurate |]. tauto. }
  exact (proj2 (proj2 mac_formulas_agree_iff_rectangular)
           round_up square_low round_up_accurate square_low_accurate
           1200 9 1 H1 H2 H3).
Defined.

(** ** The tail surfaces *)

(** A full run of [design_empennage] on answers inside the ranges of its
    eight prompts. *)
Lemma design_empennage_run
  (wing_area p_hs ar_hs t_hs p_el p_vs ar_vs t_vs p_rd : R) (rest : list line) :
  0 < wing_area ->
  18 <= p_hs <= 20 -> 1 <= ar_hs <= 20 -> 0.05 <= t_hs <= 1.5 ->
  25 <= p_el <= 50 ->
  9 <= p_vs <= 10 -> 1 <= ar_vs <= 10 -> 0.05 <= t_vs <= 1.5 ->
  25 <= p_rd <= 50 ->
  let S_hs := p_hs / 100.0 * wing_area in
  let b_hs := sqrt (ar_hs * S_hs) in
  let c_hs := 2 * S_hs / (b_hs * (1 + t_hs)) in
  let S_vs := p_vs / 100.0 * wing_area in
  let b_vs := sqrt (ar_vs * S_vs) in
  let c_vs := 2 * S_vs / (b_vs * (1 + t_vs)) in
  design_empennage wing_area
    (Numeric p_hs :: Numeric ar_hs :: Numeric t_hs :: Numeric p_el ::
     Numeric p_vs :: Numeric ar_vs :: Numeric t_vs :: Numeric p_rd :: rest)
  = Ok (mkEmpennage
          (mkHStab S_hs b_hs c_hs (t_hs * c_hs) (p_el / 100.0 * S_hs) p_hs p_el)
          (mkVStab S_vs b_vs c_vs (t_vs * c_vs) (p_rd / 100.0 * S_vs) p_vs
                   p_rd),
        rest).
Proof.
  intros Hw H1 H2 H3 H4 H5 H6 H7 H8 S_hs b_hs c_hs S_vs b_vs c_vs.
  assert (HSh : 0 < ar_hs * S_hs).
  { apply Rmult_lt_0_compat; [lra |]. apply Rmult_lt_0_compat; lra. }
  assert (HSv : 0 < ar_vs * S_vs).
  { apply Rmult_lt_0_compat; [lra |]. apply Rmult_lt_0_compat; lra. }
  assert (Hh0 : 0 <= ar_hs * S_hs) by lra.
  assert (Hv0 : 0 <= ar_vs * S_vs) by lra.
  assert (Hbh : b_hs * (1 + t_hs) <> 0).
  { apply Rmult_integral_contrapositive_currified; [| lra].
    apply Rgt_not_eq, sqrt_lt_R0, HSh. }
  assert (Hbv : b_vs * (1 + t_vs) <> 0).
  { apply Rmult_integral_contrapositive_currified; [| lra].
    apply Rgt_not_eq, sqrt_lt_R0, HSv. }
  unfold design_empennage.
  do 3 step_prompt. step_sqrt. step_div. step_prompt.
  do 3 step_prompt. step_sqrt. step_div. step_prompt.
  reflexivity.
Qed.

(** Taking a successful run apart, statement by statement: every prompt
    returned a value in its range, every division had a non-zero divisor
    and every square root a non-negative argument. *)
Ltac invert_step H :=
  let a := fresh "v" in
  let mid := fresh "mid" in
  let Hm := fresh "Hm" in
  apply io_bind_inv in H as (a & mid & Hm & H);
  first
    [ apply lift_inv in Hm as [Hm ->];
      first [ apply truediv_inv in Hm as [Hm ->]
            | apply math_sqrt_inv in Hm as [Hm ->] ]
    | apply get_float_in_range in Hm; unfold in_range in Hm; simpl in Hm ].

Ltac invert_run H :=
  repeat invert_step H;
  injection H as <- <-.

(** The trapezoid chords give the area back. *)
Lemma trapezoid_area (area span taper : R) :
  span * (1 + taper) <> 0 ->
  let root := 2 * area / (span * (1 + taper)) in
  area = span * (root + taper * root) / 2.
Proof.
  intros H root. unfold root. field.
  split; intros E; apply H; rewrite E; ring.
Qed.

Lemma design_empennage_trapezoid
  (wing_area : R) (inp rest : list line) (e : Empennage) :
  design_empennage wing_area inp = Ok (e, rest) ->
  hs_S (HS e) = hs_span (HS e) * (hs_root (HS e) + hs_tip (HS e)) / 2 /\
  vs_S (VS e) = vs_span (VS e) * (vs_root (VS e) + vs_tip (VS e)) / 2.
Proof.
  unfold design_empennage. intros H. invert_run H.
  cbn [HS VS hs_S hs_span hs_root hs_tip vs_S vs_span vs_root vs_tip].
  split; apply trapezoid_area; assumption.
Qed.

Lemma calc_tail_geometry_run (S_tail span_tail taper : R) :
  span_tail * (1 + taper) <> 0 ->
  let root := 2 * S_tail / (span_tail * (1 + taper)) in
  Batch.calc_tail_geometry S_tail span_tail taper = Ok (root, taper * root).
Proof.
  intros H root. unfold Batch.calc_tail_geometry. step_pure_div. reflexivity.
Qed.

(** C5 as stated fails for the smallest doubles.  On the area 2^-1074 (the
    smallest positive double, 5e-324), span 3 and taper ratio 1,
    [calc_tail_geometry] returns the chords 0 and 0: the root chord
    underflows.  The area they give back is 0, which is not within 1e-6 of
    the area given. *)
Lemma chords_underflow_in_doubles :
  (0 <? 0x1p-1074)%float = true /\
  Binary64.calc_tail_geometry 0x1p-1074 3 1 = Ok (0, 0)%float /\
  Binary64.within_tolerance (Binary64.chords_area 3 0 0) 0x1p-1074 = false.
Proof.
  repeat split; vm_compute; reflexivity.
Qed.

(** C5, as the code has it.  In real arithmetic, for a positive area, span
    and taper ratio the chords of [calc_tail_geometry] are
    2 area / (span (1 + taper)) and taper times that, and
    area = span (rootChord + tipChord) / 2 exactly; so it is for the wing
    of [design_wing], whose area is span^2 / AR, and for the two
    stabilizers of [design_empennage], whose areas are the percentages read
    of the wing area and whose spans are sqrt (AR area).  In floating point
    (every operation accurate to the unit roundoff) the three computations
    return, and the area their chords give back, computed the same way, is
    within 1e-6 of the area, relatively, when the numbers given lie
    between 2^-100 and 2^100. *)
Theorem trapezoid_chords_give_area :
  (forall area span taper : R,
      0 < area -> 0 < span -> 0 < taper ->
      exists root tip,
        Batch.calc_tail_geometry area span taper = Ok (root, tip) /\
        root = 2 * area / (span * (1 + taper)) /\
        tip = taper * root /\
        area = span * (root + tip) / 2) /\
  (forall (span AR taper : R) (rest : list line),
      0 < span -> 0 < AR -> 0 < taper ->
      exists w,
        design_wing (Numeric span :: Numeric AR :: Numeric taper :: rest)
        = Ok (w, rest) /\
        Interactive.span w = span /\
        wing_area w = span ^ 2 / AR /\
        c_root w = 2 * wing_area w / (span * (1 + taper)) /\
        c_tip w = taper * c_root w /\
        wing_area w = Interactive.span w * (c_root w + c_tip w) / 2) /\
  (forall (wing_area p_hs ar_hs t_hs p_el p_vs ar_vs t_vs p_rd : R)
          (rest : list line),
      0 < wing_area ->
      18 <= p_hs <= 20 -> 1 <= ar_hs <= 20 -> 0.05 <= t_hs <= 1.5 ->
      25 <= p_el <= 50 ->
      9 <= p_vs <= 10 -> 1 <= ar_vs <= 10 -> 0.05 <= t_vs <= 1.5 ->
      25 <= p_rd <= 50 ->
      exists e,
        design_empennage wing_area
          (Numeric p_hs :: Numeric ar_hs :: Numeric t_hs :: Numeric p_el ::
           Numeric p_vs :: Numeric ar_vs :: Numeric t_vs :: Numeric p_rd ::
           rest)
        = Ok (e, rest) /\
        hs_S (HS e) = p_hs / 100.0 * wing_area /\
        hs_span (HS e) = sqrt (ar_hs * hs_S (HS e)) /\
        hs_root (HS e) = 2 * hs_S (HS e) / (hs_span (HS e) * (1 + t_hs)) /\
        hs_tip (HS e) = t_hs * hs_root (HS e) /\
        vs_S (VS e) = p_vs / 100.0 * wing_area /\
        vs_span (VS e) = sqrt (ar_vs * vs_S (VS e)) /\
        vs_root (VS e) = 2 * vs_S (VS e) / (vs_span (VS e) * (1 + t_vs)) /\
        vs_tip (VS e) = t_vs * vs_root (VS e) /\
        hs_S (HS e) = hs_span (HS e) * (hs_root (HS e) + hs_tip (HS e)) / 2 /\
        vs_S (VS e) = vs_span (VS e) * (vs_root (VS e) + vs_tip (VS e)) / 2) /\
  (forall rnd pow2 : R -> R,
      accurate rnd -> accurate_square pow2 ->
      (forall area span taper : R,
          moderate area -> moderate span -> moderate taper ->
          exists root tip,
            Rounded.calc_tail_geometry rnd area span taper = Ok (root, tip) /\
            Rabs (root - 2 * area / (span * (1 + taper)))
            <= / 10 ^ 6 * (2 * area / (span * (1 + taper))) /\
            tip = rnd (taper * root) /\
            Rabs (Rounded.chords_area rnd span root tip - area)
            <= / 10 ^ 6 * area) /\
      (forall span AR taper : R,
          moderate span -> moderate AR -> moderate taper ->
          exists w,
            Rounded.design_wing rnd pow2 span AR taper = Ok w /\
            Interactive.span w = span /\
            Rabs (wing_area w - span ^ 2 / AR) <= / 10 ^ 6 * (span ^ 2 / AR) /\
            Rabs (Rounded.chords_area rnd (Interactive.span w) (c_root w)
                    (c_tip w) - wing_area w)
            <= / 10 ^ 6 * wing_area w) /\
      (forall wing_area p_hs ar_hs t_hs p_el p_vs ar_vs t_vs p_rd : R,
          moderate wing_area ->
          18 <= p_hs <= 20 -> 1 <= ar_hs <= 20 -> 0.05 <= t_hs <= 1.5 ->
          9 <= p_vs <= 10 -> 1 <= ar_vs <= 10 -> 0.05 <= t_vs <= 1.5 ->
          exists e,
            Rounded.design_empennage rnd wing_area p_hs ar_hs t_hs p_el
              p_vs ar_vs t_vs p_rd = Ok e /\
            Rabs (hs_S (HS e) - p_hs / 100.0 * wing_area)
            <= / 10 ^ 6 * (p_hs / 100.0 * wing_area) /\
            Rabs (vs_S (VS e) - p_vs / 100.0 * wing_area)
            <= / 10 ^ 6 * (p_vs / 100.0 * wing_area) /\
            Rabs (Rounded.chords_area rnd (hs_span (HS e)) (hs_root (HS e))
                    (hs_tip (HS e)) - hs_S (HS e))
            <= / 10 ^ 6 * hs_S (HS e) /\
            Rabs (Rounded.chords_area rnd (vs_span (VS e)) (vs_root (VS e))
                    (vs_tip (VS e)) - vs_S (VS e))
            <= / 10 ^ 6 * vs_S (VS e))).
Proof.
  split; [| split; [| split]].
  - intros area span taper Ha Hs Ht.
    assert (H : span * (1 + taper) <> 0) by nra.
    do 2 eexists. split; [apply calc_tail_geometry_run, H |].
    split; [reflexivity |]. split; [reflexivity |].
    apply trapezoid_area, H.
  - intros span AR taper rest Hs Ha Ht.
    eexists. split; [apply design_wing_run; lra |].
    cbn [Interactive.span wing_area c_root c_tip].
    do 4 (split; [reflexivity |]).
    apply trapezoid_area. nra.
  - intros wing_area p_hs ar_hs t_hs p_el p_vs ar_vs t_vs p_rd rest
      Hw H1 H2 H3 H4 H5 H6 H7 H8.
    pose proof (design_empennage_run wing_area p_hs ar_hs t_hs p_el
                  p_vs ar_vs t_vs p_rd rest Hw H1 H2 H3 H4 H5 H6 H7 H8)
      as Hrun.
    cbv zeta in Hrun.
    pose proof (design_empennage_trapezoid _ _ _ _ Hrun) as Htr.
    eexists. split; [exact Hrun |].
    cbn [HS VS hs_S hs_span hs_root hs_tip vs_S vs_span vs_root vs_tip]
      in Htr |- *.
    do 8 (split; [reflexivity |]). exact Htr.
  - intros rnd pow2 Hrnd Hpow. split; [| split].
    + intros area span taper Ha Hs Ht.
      destruct (rounded_calc_tail_geometry_accurate rnd Hrnd area span taper
                  Ha Hs Ht) as (root & tip & Hr & Nr & Etip & Hc).
      exists root, tip. split; [exact Hr |].
      split; [eapply near_error; [exact Nr | unfold u; lra] |].
      split; [exact Etip | exact Hc].
    + intros span AR taper Hs Ha Ht.
      destruct (rounded_design_wing_accurate rnd pow2 Hrnd Hpow span AR taper
                  Hs Ha Ht) as (w & Hw & Esp & Nwa & _ & _ & Hc).
      exists w. split; [exact Hw |]. split; [exact Esp |].
      split; [eapply near_error; [exact Nwa | unfold u; lra] |].
      rewrite Esp. exact Hc.
    + intros wing_area p_hs ar_hs t_hs p_el p_vs ar_vs t_vs p_rd
        Hw H1 H2 H3 H5 H6 H7.
      destruct (rounded_design_empennage_accurate rnd Hrnd wing_area
                  p_hs ar_hs t_hs p_el p_vs ar_vs t_vs p_rd
                  Hw H1 H2 H3 H5 H6 H7) as (e & He & Nh & Nv & Hch & Hcv).
      exists e. split; [exact He |].
      split; [eapply near_error; [exact Nh | unfold u; lra] |].
      split; [eapply near_error; [exact Nv | unfold u; lra] |].
      split; [exact Hch | exact Hcv].
Qed.

Lemma trapezoid_chords_give_area_witness :
  (accurate round_up /\ moderate 0.0342 /\ moderate 0.48 /\ moderate 0.6) /\
  exists root tip,
    Rounded.calc_tail_geometry round_up 0.0342 0.48 0.6 = Ok (root, tip) /\
    Rabs (root - 2 * 0.0342 / (0.48 * (1 + 0.6)))
    <= / 10 ^ 6 * (2 * 0.0342 / (0.48 * (1 + 0.6))) /\
    tip = round_up (0.6 * root) /\
    Rabs (Rounded.chords_area round_up 0.48 root tip - 0.0342)
    <= / 10 ^ 6 * 0.0342.
Proof.
  assert (H1 : moderate 0.0342) by (unfold moderate; lra).
  assert (H2 : moderate 0.48) by (unfold moderate; lra).
  assert (H3 : moderate 0.6) by (unfold moderate; lra).
  split; [split; [exact round_up_accurate | tauto] |].
  exact (proj1 (proj2 (proj2 (proj2 trapezoid_chords_give_area))
                 round_up square_low round_up_accurate square_low_accurate)
           0.0342 0.48 0.6 H1 H2 H3).
Defined.

(** ** Static margin *)

Lemma cg_and_static_margin_run (MAC_mm np cg : R) (rest : list line) :
  25 <= np <= 40 -> 0 <= cg <= 100 ->
  cg_and_static_margin MAC_mm (Numeric np :: Numeric cg :: rest)
  = Ok (mkCGMargin np cg (np - cg) (np / 100.0 * MAC_mm) (cg / 100.0 * MAC_mm),
        rest).
Proof.
  intros Hn Hc. unfold cg_and_static_margin. do 2 step_prompt. reflexivity.
Qed.

(** An empty answer to the first prompt stands for the default, 30. *)
Lemma cg_and_static_margin_default (MAC_mm cg : R) (rest : list line) :
  0 <= cg <= 100 ->
  cg_and_static_margin MAC_mm (Empty :: Numeric cg :: rest)
  = Ok (mkCGMargin 30.0 cg (30.0 - cg) (30.0 / 100.0 * MAC_mm)
          (cg / 100.0 * MAC_mm), rest).
Proof.
  intros Hc. unfold cg_and_static_margin.
  erewrite io_bind_ok
    by (apply get_float_default; unfold in_range; simpl; lra).
  step_prompt. reflexivity.
Qed.

(** C6.  [cg_and_static_margin] returns the static margin as the
    difference of the two percentages of MAC it read, neutral point minus
    centre of gravity; for a neutral point at 30 and a centre of gravity at
    25 it returns 5, whatever the MAC. *)
Theorem static_margin_percent_convention (MAC_mm : R) :
  (forall (inp rest : list line) (r : CGMargin),
      cg_and_static_margin MAC_mm inp = Ok (r, rest) ->
      SM_percent r = NP_percent r - CG_percent r) /\
  (forall (np cg : R) (rest : list line),
      25 <= np <= 40 -> 0 <= cg <= 100 ->
      exists r,
        cg_and_static_margin MAC_mm (Numeric np :: Numeric cg :: rest)
        = Ok (r, rest) /\
        NP_percent r = np /\ CG_percent r = cg /\ SM_percent r = np - cg) /\
  (exists r,
      cg_and_static_margin MAC_mm [Numeric 30; Numeric 25] = Ok (r, []) /\
      NP_percent r = 30 /\ CG_percent r = 25 /\ SM_percent r = 5) /\
  (exists r,
      cg_and_static_margin MAC_mm [Empty; Numeric 25] = Ok (r, []) /\
      NP_percent r = 30 /\ CG_percent r = 25 /\ SM_percent r = 5).
Proof.
  repeat split.
  - intros inp rest r H. unfold cg_and_static_margin in H. invert_run H.
    reflexivity.
  - intros np cg rest Hn Hc. eexists.
    split; [apply cg_and_static_margin_run; assumption |]. repeat split.
  - eexists. split; [apply cg_and_static_margin_run; lra |].
    cbn [NP_percent CG_percent SM_percent]. repeat split; lra.
  - eexists. split; [apply cg_and_static_margin_default; lra |].
    cbn [NP_percent CG_percent SM_percent]. repeat split; lra.
Qed.

Lemma static_margin_percent_convention_witness :
  (25 <= 30 <= 40 /\ 0 <= 25 <= 100) /\
  exists r,
    cg_and_static_margin 150 [Numeric 30; Numeric 25] = Ok (r, []) /\
    NP_percent r = 30 /\ CG_percent r = 25 /\ SM_percent r = 30 - 25.
Proof.
  split; [lra |].
  apply (proj1 (proj2 (static_margin_percent_convention 150)) 30 25 []); lra.
Defined.

(** ** Aerodynamics *)

Lemma calc_aerodynamics_run (rho V S CL CD0 AR e : R) :
  e <> 0 -> AR <> 0 ->
  let q := 0.5 * rho * V ^ 2 in
  let CD := CD0 + CL ^ 2 / (PI * e * AR) in
  Batch.calc_aerodynamics rho V S CL CD0 AR e = Ok (q * S * CL, q * S * CD, CD).
Proof.
  intros He Ha q CD. unfold Batch.calc_aerodynamics.
  assert (H : PI * e * AR <> 0).
  { apply Rmult_integral_contrapositive_currified; [| exact Ha].
    apply Rmult_integral_contrapositive_currified; [apply PI_neq0 | exact He]. }
  step_pure_div. reflexivity.
Qed.

(** C8.  For positive arguments and an Oswald efficiency in (0, 1],
    [calc_aerodynamics] returns lift = 0.5 density velocity^2 wingArea
    liftCoeff, dragCoeff = zeroDragCoeff + liftCoeff^2 / (pi
    oswaldEfficiency aspectRatio) and drag = 0.5 density velocity^2
    wingArea dragCoeff. *)
Theorem calc_aerodynamics_formulas (rho V S CL CD0 AR e : R) :
  0 < rho -> 0 < V -> 0 < S -> 0 < CL -> 0 < CD0 -> 0 < AR -> 0 < e <= 1 ->
  exists lift drag dragCoeff,
    Batch.calc_aerodynamics rho V S CL CD0 AR e = Ok (lift, drag, dragCoeff) /\
    lift = 0.5 * rho * V ^ 2 * S * CL /\
    dragCoeff = CD0 + CL ^ 2 / (PI * e * AR) /\
    drag = 0.5 * rho * V ^ 2 * S * dragCoeff.
Proof.
  intros _ _ _ _ _ Ha He.
  do 3 eexists. split; [apply calc_aerodynamics_run; lra |].
  repeat split.
Qed.

Lemma calc_aerodynamics_formulas_witness :
  (0 < 1.225 /\ 0 < 10 /\ 0 < 0.18 /\ 0 < 1.4 /\ 0 < 0.02 /\ 0 < 8 /\
   0 < 0.8 <= 1) /\
  exists lift drag dragCoeff,
    Batch.calc_aerodynamics 1.225 10 0.18 1.4 0.02 8 0.8
    = Ok (lift, drag, dragCoeff) /\
    lift = 0.5 * 1.225 * 10 ^ 2 * 0.18 * 1.4 /\
    dragCoeff = 0.02 + 1.4 ^ 2 / (PI * 0.8 * 8) /\
    drag = 0.5 * 1.225 * 10 ^ 2 * 0.18 * dragCoeff.
Proof.
  split; [lra |].
  apply (calc_aerodynamics_formulas 1.225 10 0.18 1.4 0.02 8 0.8); lra.
Defined.

(** ** Stall speed *)

Lemma stall_speed_run (W rho S CLmax : R) :
  0 <= W -> 0 < rho -> 0 < S ->
  Batch.stall_speed W rho S CLmax
  = Ok (Batch.Finite (sqrt (2 * W / (rho * S)))).
Proof.
  intros Hw Hr Hs. unfold Batch.stall_speed.
  assert (Hd : 0 < rho * S) by (apply Rmult_lt_0_compat; assumption).
  assert (H : rho * S <> 0) by lra.
  step_pure_div. unfold Batch.np_sqrt.
  assert (Hq : 0 <= 2 * W / (rho * S)).
  { apply Rmult_le_pos; [lra |]. left. apply Rinv_0_lt_compat, Hd. }
  destruct (decide (2 * W / (rho * S) < 0)) as [Hn | _]; [lra | reflexivity].
Qed.

(** What does hold of the claim: on positive arguments the speed is
    strictly increasing in the weight and strictly decreasing in the wing
    area and in the density. *)
Lemma stall_speed_increasing_in_weight (W1 W2 rho S CLmax : R) :
  0 < W1 -> 0 < rho -> 0 < S -> W1 < W2 ->
  exists v1 v2,
    Batch.stall_speed W1 rho S CLmax = Ok (Batch.Finite v1) /\
    Batch.stall_speed W2 rho S CLmax = Ok (Batch.Finite v2) /\ v1 < v2.
Proof.
  intros H1 Hr Hs Hlt.
  do 2 eexists. split; [apply stall_speed_run; lra |].
  split; [apply stall_speed_run; lra |].
  assert (Hd : 0 < / (rho * S))
    by (apply Rinv_0_lt_compat, Rmult_lt_0_compat; assumption).
  apply sqrt_lt_1_alt. unfold Rdiv. split; nra.
Qed.

Lemma stall_speed_decreasing_in_area (W rho S1 S2 CLmax : R) :
  0 < W -> 0 < rho -> 0 < S1 -> S1 < S2 ->
  exists v1 v2,
    Batch.stall_speed W rho S1 CLmax = Ok (Batch.Finite v1) /\
    Batch.stall_speed W rho S2 CLmax = Ok (Batch.Finite v2) /\ v2 < v1.
Proof.
  intros Hw Hr H1 Hlt.
  do 2 eexists. split; [apply stall_speed_run; lra |].
  split; [apply stall_speed_run; lra |].
  assert (Ha : 0 < rho * S1) by (apply Rmult_lt_0_compat; lra).
  assert (Hb : 0 < rho * S2) by (apply Rmult_lt_0_compat; lra).
  assert (Hi : / (rho * S2) < / (rho * S1)).
  { apply Rinv_lt_contravar; [apply Rmult_lt_0_compat; assumption | nra]. }
  assert (Hp : 0 < / (rho * S2)) by (apply Rinv_0_lt_compat, Hb).
  apply sqrt_lt_1_alt. unfold Rdiv. split; nra.
Qed.

Lemma stall_speed_decreasing_in_density (W rho1 rho2 S CLmax : R) :
  0 < W -> 0 < rho1 -> 0 < S -> rho1 < rho2 ->
  exists v1 v2,
    Batch.stall_speed W rho1 S CLmax = Ok (Batch.Finite v1) /\
    Batch.stall_speed W rho2 S CLmax = Ok (Batch.Finite v2) /\ v2 < v1.
Proof.
  intros Hw H1 Hs Hlt.
  do 2 eexists. split; [apply stall_speed_run; lra |].
  split; [apply stall_speed_run; lra |].
  assert (Ha : 0 < rho1 * S) by (apply Rmult_lt_0_compat; lra).
  assert (Hb : 0 < rho2 * S) by (apply Rmult_lt_0_compat; lra).
  assert (Hi : / (rho2 * S) < / (rho1 * S)).
  { apply Rinv_lt_contravar; [apply Rmult_lt_0_compat; assumption | nra]. }
  assert (Hp : 0 < / (rho2 * S)) by (apply Rinv_0_lt_compat, Hb).
  apply sqrt_lt_1_alt. unfold Rdiv. split; nra.
Qed.

(** C3, where the code departs from it.  [stall_speed] never reads its
    fourth argument: two maximum lift coefficients give the same speed, so
    the speed is not strictly decreasing in it.  At weight 19.62, density
    1.225 and wing area 0.18 the coefficients 1.4 and 2.0 both give
    sqrt (2 * 19.62 / (1.225 * 0.18)). *)
Theorem stall_speed_ignores_CLmax :
  (forall W rho S CL1 CL2 : R,
      Batch.stall_speed W rho S CL1 = Batch.stall_speed W rho S CL2) /\
  Batch.stall_speed 19.62 1.225 0.18 1.4
  = Ok (Batch.Finite (sqrt (2 * 19.62 / (1.225 * 0.18)))) /\
  Batch.stall_speed 19.62 1.225 0.18 2.0
  = Ok (Batch.Finite (sqrt (2 * 19.62 / (1.225 * 0.18)))) /\
  ~ (exists v1 v2,
        Batch.stall_speed 19.62 1.225 0.18 1.4 = Ok (Batch.Finite v1) /\
        Batch.stall_speed 19.62 1.225 0.18 2.0 = Ok (Batch.Finite v2) /\
        v2 < v1).
Proof.
  assert (E : forall CLmax,
             Batch.stall_speed 19.62 1.225 0.18 CLmax
             = Ok (Batch.Finite (sqrt (2 * 19.62 / (1.225 * 0.18)))))
    by (intros CLmax; apply stall_speed_run; lra).
  split; [reflexivity |].
  split; [apply E |].
  split; [apply E |].
  intros (v1 & v2 & H1 & H2 & Hlt).
  rewrite E in H1, H2. injection H1 as <-. injection H2 as <-.
  exact (Rlt_irrefl _ Hlt).
Qed.

(** ** Loading the configuration *)

Import Batch.

(** The loop of [load_input] computes the union of the configuration with
    the table of defaults, the configuration taking precedence. *)
Lemma foldl_fill_default (l : list (string * json)) (data : gmap string json) :
  foldl fill_default data l = data ∪ list_to_map l.
Proof.
  revert data. induction l as [| [k v] l IH]; intros data; simpl.
  - rewrite (right_id_L ∅ (∪)). reflexivity.
  - rewrite IH. unfold fill_default. simpl.
    apply map_eq. intros i.
    destruct (data !! k) as [x |] eqn:E.
    + rewrite !lookup_union.
      destruct (decide (k = i)) as [<- | N].
      * rewrite E, lookup_insert_eq. 
        destruct (list_to_map l !! k); reflexivity.
      * rewrite lookup_insert_ne by exact N. reflexivity.
    + rewrite !lookup_union.
      destruct (decide (k = i)) as [<- | N].
      * rewrite E, !lookup_insert_eq.
        destruct (list_to_map l !! k); reflexivity.
      * rewrite !lookup_insert_ne by exact N. reflexivity.
Qed.

Lemma load_input_union (data : gmap string json) :
  load_input data = data ∪ list_to_map DEFAULTS.
Proof.
  apply foldl_fill_default.
Qed.

Lemma DEFAULTS_keys_NoDup : NoDup DEFAULTS.*1.
Proof.
  apply (bool_decide_unpack (NoDup DEFAULTS.*1)). vm_compute. exact I.
Qed.

Lemma load_input_present (data : gmap string json) (key : string) (val : json) :
  data !! key = Some val -> load_input data !! key = Some val.
Proof.
  intros H. rewrite load_input_union. apply lookup_union_Some_l, H.
Qed.

Lemma load_input_absent (data : gmap string json) (key : string) (val : json) :
  (key, val) ∈ DEFAULTS -> data !! key = None ->
  load_input data !! key = Some val.
Proof.
  intros Hin H. rewrite load_input_union, lookup_union_r by exact H.
  apply elem_of_list_to_map_1; [apply DEFAULTS_keys_NoDup | exact Hin].
Qed.

(** C9.  Whatever the configuration read, each of the eight documented
    keys is present in what [load_input] returns, and a key the
    configuration lacks carries its documented default; [load_input] is a
    total function on dictionaries, so a missing key is never an error. *)
Theorem load_input_fills_defaults
  (data : gmap string json) (key : string) (val : json) :
  (key, val) ∈ [ ("weight"%string, JFloat 2.0);
                 ("cl_max"%string, JFloat 1.4);
                 ("taper_ratio"%string, JFloat 1.0);
                 ("tail_taper_H"%string, JFloat 1.0);
                 ("tail_taper_V"%string, JFloat 1.0);
                 ("motor_kv"%string, JInt 1200);
                 ("battery_voltage"%string, JFloat 11.1);
                 ("propeller"%string, JStr "9x4.5") ] ->
  is_Some (load_input data !! key) /\
  (data !! key = None -> load_input data !! key = Some val).
Proof.
  intros Hin. fold DEFAULTS in Hin. split.
  - destruct (data !! key) as [x |] eqn:E.
    + exists x. apply load_input_present, E.
    + exists val. apply load_input_absent; assumption.
  - intros E. apply load_input_absent; assumption.
Qed.

Lemma load_input_fills_defaults_witness :
  ("motor_kv"%string, JInt 1200) ∈ DEFAULTS /\
  is_Some (load_input ∅ !! "motor_kv"%string) /\
  ((∅ : gmap string json) !! "motor_kv"%string = None ->
   load_input ∅ !! "motor_kv"%string = Some (JInt 1200)).
Proof.
  assert (Hin : ("motor_kv"%string, JInt 1200) ∈ DEFAULTS).
  { do 5 apply list_elem_of_further. apply list_elem_of_here. }
  split; [exact Hin |].
  apply (load_input_fills_defaults ∅ "motor_kv" (JInt 1200) Hin).
Defined.

(** C10.  A key the configuration has keeps the value the configuration
    gives it, whether or not the table of defaults has the key too. *)
Theorem load_input_keeps_supplied
  (data : gmap string json) (key : string) (val : json) :
  data !! key = Some val -> load_input data !! key = Some val.
Proof.
  unfold load_input. generalize DEFAULTS. intros l. revert data.
  induction l as [| [k d] l IH]; intros data H; simpl; [exact H |].
  apply IH. unfold fill_default. simpl.
  destruct (data !! k) as [x |] eqn:E; [exact H |].
  rewrite lookup_insert_ne; [exact H |].
  intros ->. rewrite H in E. discriminate E.
Qed.

Lemma load_input_keeps_supplied_witness :
  ({[ "weight"%string := JFloat 3.5 ]} : gmap string json) !! "weight"%string
  = Some (JFloat 3.5) /\
  load_input {[ "weight"%string := JFloat 3.5 ]} !! "weight"%string
  = Some (JFloat 3.5).
Proof.
  split; [apply lookup_singleton_eq |].
  apply (load_input_keeps_supplied {[ "weight"%string := JFloat 3.5 ]}).
  apply lookup_singleton_eq.
Defined.

(** ** The batch run *)

Lemma config_number_inv (input : gmap string json) (key : string) (x : R) :
  config_number input key = Ok x ->
  exists v, getitem (load_input input) key = Ok v /\ as_number v = Ok x.
Proof.
  apply result_bind_inv.
Qed.

Lemma calc_wing_geometry_config_number (b AR t : R) (v : json) :
  as_number v = Ok t ->
  calc_wing_geometry_config b AR v = calc_wing_geometry b AR t.
Proof.
  intros H. unfold calc_wing_geometry_config. rewrite H. reflexivity.
Qed.

Lemma stability_run (MAC x_cg x_np : R) :
  MAC <> 0 ->
  stability MAC x_cg x_np = Ok ((x_np - x_cg) / MAC, 0.25 * MAC).
Proof.
  intros H. unfold stability. step_pure_div. reflexivity.
Qed.

(** A full run of [main] on a configuration whose numeric entries, as
    completed by [load_input], are numbers with a non-zero wingspan and
    aspect ratio and taper ratios other than -1. *)
Lemma main_run (input : gmap string json) (ws ar wt cl t tH tV : R) :
  config_number input "wingspan" = Ok ws ->
  config_number input "aspect_ratio" = Ok ar ->
  config_number input "weight" = Ok wt ->
  config_number input "cl_max" = Ok cl ->
  config_number input "taper_ratio" = Ok t ->
  config_number input "tail_taper_H" = Ok tH ->
  config_number input "tail_taper_V" = Ok tV ->
  0 < ws -> 0 < ar -> 0 <= wt -> 1 + t <> 0 -> 1 + tH <> 0 -> 1 + tV <> 0 ->
  let b := ws / 1000 in
  let S := b ^ 2 / ar in
  let MAC := S / b in
  let C_root := 2 * S / (b * (1 + t)) in
  let SH := 0.19 * S in
  let SV := 0.095 * S in
  let Lf := 0.675 * b in
  let Hf := 0.125 * Lf in
  let Wf := 0.2 * Hf in
  let b_H := 0.4 * b in
  let C_root_H := 2 * SH / (b_H * (1 + tH)) in
  let C_root_V := 2 * SV / (Hf * (1 + tV)) in
  let CD := 0.02 + cl ^ 2 / (PI * 0.8 * ar) in
  Batch.main input
  = Ok (mkDesign S MAC C_root (t * C_root) SH SV Lf Hf Wf b_H Hf
          C_root_H (tH * C_root_H) C_root_V (tV * C_root_V)
          (0.5 * 1.225 * 10 ^ 2 * S * cl) (0.5 * 1.225 * 10 ^ 2 * S * CD) CD
          (Finite (sqrt (2 * (wt * 9.81) / (1.225 * S))))
          ((0.4 * MAC - 0.3 * MAC) / MAC) (0.25 * MAC)
          (0.3 * MAC) (0.4 * MAC)).
Proof.
  intros Hws Har Hwt Hcl Ht HtH HtV Pws Par Pwt Pt PtH PtV.
  intros b S MAC C_root SH SV Lf Hf Wf b_H C_root_H C_root_V CD.
  apply config_number_inv in Har as (ar_v & Har & Har').
  apply config_number_inv in Hcl as (cl_v & Hcl & Hcl').
  apply config_number_inv in Ht as (t_v & Ht & Ht').
  unfold config_number in Hws, Hwt, HtH, HtV.
  assert (Pb : 0 < b) by (unfold b; lra).
  assert (PS : 0 < S).
  { unfold S. apply Rdiv_lt_0_compat; [| exact Par]. apply pow_lt, Pb. }
  assert (PM : 0 < MAC) by (apply Rdiv_lt_0_compat; assumption).
  unfold Batch.main. cbv zeta.
  rewrite (result_bind_ok _ _ _ Hws).
  rewrite (result_bind_ok _ _ _ Har).
  rewrite (result_bind_ok _ _ _ Hwt).
  rewrite (result_bind_ok _ _ _ Hcl).
  rewrite (result_bind_ok _ _ _ Ht).
  rewrite (result_bind_ok _ _ _ Har').
  rewrite (calc_wing_geometry_config_number _ _ _ _ Ht').
  erewrite result_bind_ok by (apply calc_wing_geometry_run; lra).
  cbv beta iota zeta delta [tail_areas fuselage_dimensions].
  rewrite (result_bind_ok _ _ _ HtH).
  erewrite result_bind_ok
    by (apply calc_tail_geometry_run;
        apply Rmult_integral_contrapositive_currified;
        [fold b; lra | exact PtH]).
  cbv beta iota.
  rewrite (result_bind_ok _ _ _ HtV).
  erewrite result_bind_ok
    by (apply calc_tail_geometry_run;
        apply Rmult_integral_contrapositive_currified;
        [fold b; lra | exact PtV]).
  cbv beta iota.
  rewrite (result_bind_ok _ _ _ Hcl').
  erewrite result_bind_ok by (apply calc_aerodynamics_run; lra).
  cbv beta iota.
  erewrite result_bind_ok
    by (apply stall_speed_run; [lra | lra | exact PS]).
  erewrite result_bind_ok by (apply stability_run; fold b S MAC; lra).
  reflexivity.
Qed.

Lemma config_number_supplied
  (input : gmap string json) (key : string) (v : json) (x : R) :
  input !! key = Some v -> as_number v = Ok x -> config_number input key = Ok x.
Proof.
  intros Hk Hv. unfold config_number, getitem.
  rewrite (load_input_present _ _ _ Hk). exact Hv.
Qed.

Lemma config_number_default
  (input : gmap string json) (key : string) (v : json) (x : R) :
  input !! key = None -> (key, v) ∈ DEFAULTS -> as_number v = Ok x ->
  config_number input key = Ok x.
Proof.
  intros Hk Hin Hv. unfold config_number, getitem.
  rewrite (load_input_absent _ _ _ Hin Hk). exact Hv.
Qed.

(** The five optional numeric entries of a configuration that gives only
    the wingspan and the aspect ratio. *)
Lemma config_defaults (input : gmap string json) :
  input !! "weight"%string = None ->
  input !! "cl_max"%string = None ->
  input !! "taper_ratio"%string = None ->
  input !! "tail_taper_H"%string = None ->
  input !! "tail_taper_V"%string = None ->
  config_number input "weight" = Ok 2.0 /\
  config_number input "cl_max" = Ok 1.4 /\
  config_number input "taper_ratio" = Ok 1.0 /\
  config_number input "tail_taper_H" = Ok 1.0 /\
  config_number input "tail_taper_V" = Ok 1.0.
Proof.
  intros H1 H2 H3 H4 H5.
  repeat split;
    match goal with
    | |- config_number _ _ = Ok ?x =>
        apply (config_number_default _ _ (JFloat x));
        [ assumption
        | unfold DEFAULTS; rewrite !elem_of_cons; auto 10
        | reflexivity ]
    end.
Qed.

Example minimal_config_lookups :
  let input : gmap string json :=
    {[ "wingspan"%string := JInt 1200; "aspect_ratio"%string := JInt 8 ]} in
  input !! "wingspan"%string = Some (JInt 1200) /\
  input !! "aspect_ratio"%string = Some (JInt 8) /\
  input !! "weight"%string = None.
Proof.
  repeat split; reflexivity.
Qed.

Lemma sqrt_neq (a x : R) : 0 <= x -> a * a <> x -> a <> sqrt x.
Proof.
  intros Hx Hne E. apply Hne. rewrite E. apply sqrt_sqrt, Hx.
Qed.

(** The run of [main] on a configuration that gives a wingspan of 1200 mm
    and an aspect ratio of 8 and nothing else. *)
Lemma main_minimal_run :
  exists d,
    Batch.main
      {[ "wingspan"%string := JInt 1200; "aspect_ratio"%string := JInt 8 ]}
    = Ok d /\
    Batch.S d = 0.18 /\ SH d = 0.0342 /\ SV d = 0.0171 /\
    b_H d = 0.48 /\ b_V d = 0.10125 /\
    C_root_H d = 0.07125 /\ C_tip_H d = 0.07125.
Proof.
  destruct (config_defaults
              {[ "wingspan"%string := JInt 1200;
                 "aspect_ratio"%string := JInt 8 ]})
    as (Hw & Hc & Ht & HtH & HtV); try reflexivity.
  eexists. split.
  - apply (main_run _ 1200 8 2.0 1.4 1.0 1.0 1.0); try assumption; try lra.
    + apply (config_number_supplied _ _ (JInt 1200)); reflexivity.
    + apply (config_number_supplied _ _ (JInt 8)); reflexivity.
  - cbn [Batch.S SH SV b_H b_V C_root_H C_tip_H]. repeat split; lra.
Qed.

(** C7 as stated fails on the batch calculator.  On the configuration
    wingspan 1200, aspect ratio 8 the horizontal tail has area 0.0342 and
    span 0.48, the vertical tail area 0.0171 and span 0.10125: neither span
    is the square root of the aspect ratio times the tail area, and no
    single rule span = sqrt (aspectRatio * tailArea) can hold for every
    positive aspect ratio. *)
Lemma batch_tail_span_not_sqrt :
  exists d,
    Batch.main
      {[ "wingspan"%string := JInt 1200; "aspect_ratio"%string := JInt 8 ]}
    = Ok d /\
    SH d = 0.0342 /\ b_H d = 0.48 /\ SV d = 0.0171 /\ b_V d = 0.10125 /\
    b_H d <> sqrt (8 * SH d) /\
    b_V d <> sqrt (8 * SV d) /\
    (SH d, b_H d, C_root_H d, C_tip_H d)
    <> Spec.computeTail 0.19 (Batch.S d) 8 1 /\
    ~ (forall aspectRatio : R,
          0 < aspectRatio -> b_H d = sqrt (aspectRatio * SH d)).
Proof.
  destruct main_minimal_run as (d & Hd & HS & HSH & HSV & HbH & HbV & _).
  exists d. split; [exact Hd |].
  assert (N1 : b_H d <> sqrt (8 * SH d)).
  { rewrite HSH, HbH. apply sqrt_neq; lra. }
  assert (N2 : b_V d <> sqrt (8 * SV d)).
  { rewrite HSV, HbV. apply sqrt_neq; lra. }
  repeat split; try assumption.
  - unfold Spec.computeTail. intros [= E1 E2 _]. apply N1.
    rewrite E2 at 1. rewrite HSH, HS. f_equal. lra.
  - intros H. apply N1, H. lra.
Qed.

(** C7, as the code has it.  The interactive calculator follows the tail
    contract of the specification, [Spec.computeTail], for each stabilizer,
    on the answers its prompts accept, the area fraction being the
    percentage read divided by 100.  The batch calculator takes the tail
    areas as the fixed fractions 0.19 and 0.095 of the wing area, the
    horizontal tail span as 0.4 of the wingspan and the vertical tail span
    as the fuselage height, 0.125 * 0.675 of the wingspan, and derives the
    chords from those areas and spans by the trapezoid formulas. *)
Theorem tail_geometry_of_each_variant :
  (forall (wing_area p_hs ar_hs t_hs p_el p_vs ar_vs t_vs p_rd : R)
          (rest : list line),
      0 < wing_area ->
      18 <= p_hs <= 20 -> 1 <= ar_hs <= 20 -> 0.05 <= t_hs <= 1.5 ->
      25 <= p_el <= 50 ->
      9 <= p_vs <= 10 -> 1 <= ar_vs <= 10 -> 0.05 <= t_vs <= 1.5 ->
      25 <= p_rd <= 50 ->
      exists e,
        design_empennage wing_area
          (Numeric p_hs :: Numeric ar_hs :: Numeric t_hs :: Numeric p_el ::
           Numeric p_vs :: Numeric ar_vs :: Numeric t_vs :: Numeric p_rd ::
           rest)
        = Ok (e, rest) /\
        (hs_S (HS e), hs_span (HS e), hs_root (HS e), hs_tip (HS e))
        = Spec.computeTail (p_hs / 100) wing_area ar_hs t_hs /\
        (vs_S (VS e), vs_span (VS e), vs_root (VS e), vs_tip (VS e))
        = Spec.computeTail (p_vs / 100) wing_area ar_vs t_vs) /\
  (forall (input : gmap string json) (ws ar wt cl t tH tV : R),
      config_number input "wingspan" = Ok ws ->
      config_number input "aspect_ratio" = Ok ar ->
      config_number input "weight" = Ok wt ->
      config_number input "cl_max" = Ok cl ->
      config_number input "taper_ratio" = Ok t ->
      config_number input "tail_taper_H" = Ok tH ->
      config_number input "tail_taper_V" = Ok tV ->
      0 < ws -> 0 < ar -> 0 <= wt -> 0 < t -> 0 < tH -> 0 < tV ->
      exists d,
        Batch.main input = Ok d /\
        SH d = 0.19 * Batch.S d /\ SV d = 0.095 * Batch.S d /\
        b_H d = 0.4 * (ws / 1000) /\
        b_V d = 0.125 * (0.675 * (ws / 1000)) /\
        C_root_H d = 2 * SH d / (b_H d * (1 + tH)) /\
        C_tip_H d = tH * C_root_H d /\
        C_root_V d = 2 * SV d / (b_V d * (1 + tV)) /\
        C_tip_V d = tV * C_root_V d).
Proof.
  split.
  - intros wing_area p_hs ar_hs t_hs p_el p_vs ar_vs t_vs p_rd rest
      Hw H1 H2 H3 H4 H5 H6 H7 H8.
    eexists. split; [apply design_empennage_run; assumption |].
    cbn [HS VS hs_S hs_span hs_root hs_tip vs_S vs_span vs_root vs_tip].
    unfold Spec.computeTail.
    replace (p_hs / 100.0) with (p_hs / 100) by lra.
    replace (p_vs / 100.0) with (p_vs / 100) by lra.
    split; reflexivity.
  - intros input ws ar wt cl t tH tV Hws Har Hwt Hcl Ht HtH HtV
      Pws Par Pwt Pt PtH PtV.
    eexists.
    split; [apply (main_run input ws ar wt cl t tH tV); assumption || lra |].
    cbn [Batch.S SH SV b_H b_V C_root_H C_tip_H C_root_V C_tip_V].
    repeat split.
Qed.

Lemma tail_geometry_of_each_variant_witness :
  (0 < 180000 /\ 18 <= 19 <= 20 /\ 1 <= 4 <= 20 /\ 0.05 <= 0.5 <= 1.5 /\
   25 <= 30 <= 50 /\ 9 <= 9.5 <= 10 /\ 1 <= 1.5 <= 10 /\
   0.05 <= 0.5 <= 1.5 /\ 25 <= 30 <= 50) /\
  exists e,
    design_empennage 180000
      [Numeric 19; Numeric 4; Numeric 0.5; Numeric 30;
       Numeric 9.5; Numeric 1.5; Numeric 0.5; Numeric 30]
    = Ok (e, []) /\
    (hs_S (HS e), hs_span (HS e), hs_root (HS e), hs_tip (HS e))
    = Spec.computeTail (19 / 100) 180000 4 0.5 /\
    (vs_S (VS e), vs_span (VS e), vs_root (VS e), vs_tip (VS e))
    = Spec.computeTail (9.5 / 100) 180000 1.5 0.5.
Proof.
  split; [lra |].
  apply (proj1 tail_geometry_of_each_variant
           180000 19 4 0.5 30 9.5 1.5 0.5 30 []); lra.
Defined.

(** ** Zero span, zero aspect ratio, zero wing area *)

(** The unbounded prompts of [design_wing] let a zero through, and the
    formulas then divide by it. *)
Lemma design_wing_zero (span AR taper : R) (rest : list line) :
  span = 0 \/ AR = 0 ->
  design_wing (Numeric span :: Numeric AR :: Numeric taper :: rest)
  = Raise ZeroDivisionError.
Proof.
  intros H. unfold design_wing. do 3 step_prompt.
  destruct (decide (AR = 0)) as [Ha | Ha].
  - apply lift_bind_raise, truediv_zero, Ha.
  - destruct H as [Hs | Ha']; [| contradiction].
    step_div. apply lift_bind_raise, truediv_zero. rewrite Hs. ring.
Qed.

(** The whole interactive run: whatever is answered to the airfoil
    question, the exception of [design_wing] ends [main], which catches
    nothing but [KeyboardInterrupt]. *)
Lemma interactive_main_zero
  (answer : line) (span AR taper : R) (rest : list line) :
  span = 0 \/ AR = 0 ->
  Interactive.main
    (answer :: Numeric span :: Numeric AR :: Numeric taper :: rest)
  = Raise ZeroDivisionError.
Proof.
  intros H. unfold Interactive.main.
  erewrite io_bind_ok by reflexivity.
  apply io_bind_raise, design_wing_zero, H.
Qed.

Lemma calc_wing_geometry_zero (b AR taper : R) :
  b = 0 \/ AR = 0 ->
  calc_wing_geometry b AR taper = Raise ZeroDivisionError.
Proof.
  intros H. unfold calc_wing_geometry.
  destruct (decide (AR = 0)) as [Ha | Ha].
  - apply result_bind_raise, truediv_zero, Ha.
  - destruct H as [Hb | Ha']; [| contradiction].
    step_pure_div. apply result_bind_raise, truediv_zero, Hb.
Qed.

(** When [calc_wing_geometry] returns, no argument of a division was zero
    and the wing area is not zero. *)
Lemma calc_wing_geometry_inv (b AR taper S MAC C_root C_tip : R) :
  calc_wing_geometry b AR taper = Ok (S, MAC, C_root, C_tip) ->
  b <> 0 /\ AR <> 0 /\ S <> 0.
Proof.
  unfold calc_wing_geometry. intros H.
  apply result_bind_inv in H as (S' & H1 & H).
  apply result_bind_inv in H as (M' & H2 & H).
  apply result_bind_inv in H as (C' & H3 & H).
  injection H as <- <- <- <-.
  apply truediv_inv in H1 as [Ha ->]. apply truediv_inv in H2 as [Hb _].
  repeat split; try assumption.
  unfold Rdiv. apply Rmult_integral_contrapositive_currified.
  - apply pow_nonzero, Hb.
  - apply Rinv_neq_0_compat, Ha.
Qed.

Lemma load_input_fills_cl_max (input : gmap string json) :
  exists v, getitem (load_input input) "cl_max" = Ok v.
Proof.
  unfold getitem.
  destruct (load_input input !! "cl_max"%string) as [v |] eqn:E;
    [exists v; reflexivity |].
  destruct (input !! "cl_max"%string) as [x |] eqn:Ei.
  - rewrite (load_input_present _ _ _ Ei) in E. discriminate E.
  - rewrite (load_input_absent _ _ (JFloat 1.4)) in E;
      [discriminate E | | exact Ei].
    unfold DEFAULTS. rewrite !elem_of_cons. auto.
Qed.

Lemma load_input_fills_taper_ratio (input : gmap string json) :
  exists v, getitem (load_input input) "taper_ratio" = Ok v.
Proof.
  unfold getitem.
  destruct (load_input input !! "taper_ratio"%string) as [v |] eqn:E;
    [exists v; reflexivity |].
  destruct (input !! "taper_ratio"%string) as [x |] eqn:Ei.
  - rewrite (load_input_present _ _ _ Ei) in E. discriminate E.
  - rewrite (load_input_absent _ _ (JFloat 1.0)) in E;
      [discriminate E | | exact Ei].
    unfold DEFAULTS. rewrite !elem_of_cons. auto.
Qed.

(** The divisions by the aspect ratio and by the span come first: they
    raise whatever the configuration holds as taper ratio. *)
Lemma calc_wing_geometry_config_zero (b AR : R) (v : json) :
  b = 0 \/ AR = 0 ->
  calc_wing_geometry_config b AR v = Raise ZeroDivisionError.
Proof.
  intros H. unfold calc_wing_geometry_config.
  destruct (as_number v) as [t | e]; [apply calc_wing_geometry_zero, H |].
  destruct (decide (AR = 0)) as [Ha | Ha].
  - apply result_bind_raise, truediv_zero, Ha.
  - destruct H as [Hb | Ha']; [| contradiction].
    step_pure_div. apply result_bind_raise, truediv_zero, Hb.
Qed.

Lemma main_zero (input : gmap string json) (ws ar wt : R) :
  config_number input "wingspan" = Ok ws ->
  config_number input "aspect_ratio" = Ok ar ->
  config_number input "weight" = Ok wt ->
  ws = 0 \/ ar = 0 ->
  Batch.main input = Raise ZeroDivisionError.
Proof.
  intros Hws Har Hwt Hz.
  apply config_number_inv in Har as (ar_v & Har & Har').
  unfold config_number in Hws, Hwt.
  destruct (load_input_fills_cl_max input) as [cl_v Hcl].
  destruct (load_input_fills_taper_ratio input) as [t_v Ht].
  unfold Batch.main. cbv zeta.
  rewrite (result_bind_ok _ _ _ Hws).
  rewrite (result_bind_ok _ _ _ Har).
  rewrite (result_bind_ok _ _ _ Hwt).
  rewrite (result_bind_ok _ _ _ Hcl).
  rewrite (result_bind_ok _ _ _ Ht).
  rewrite (result_bind_ok _ _ _ Har').
  apply result_bind_raise, calc_wing_geometry_config_zero.
  destruct Hz as [-> | ->]; [left; lra | right; reflexivity].
Qed.

(** A zero tail area is not refused by the batch tail functions. *)
Lemma calc_tail_geometry_zero_area (span_tail taper : R) :
  span_tail * (1 + taper) <> 0 ->
  calc_tail_geometry 0 span_tail taper = Ok (0, 0).
Proof.
  intros H. rewrite calc_tail_geometry_run by exact H.
  assert (Hs : span_tail <> 0) by (intros ->; apply H; ring).
  assert (Ht : 1 + taper <> 0) by (intros E; apply H; rewrite E; ring).
  do 2 f_equal; [field; split; assumption |].
  unfold Rdiv. ring.
Qed.

(** With a wing area of zero the horizontal stabilizer has span
    [sqrt 0 = 0], and its root chord divides by it. *)
Lemma design_empennage_zero_area (p_hs ar_hs t_hs : R) (rest : list line) :
  18 <= p_hs <= 20 -> 1 <= ar_hs <= 20 -> 0.05 <= t_hs <= 1.5 ->
  design_empennage 0 (Numeric p_hs :: Numeric ar_hs :: Numeric t_hs :: rest)
  = Raise ZeroDivisionError.
Proof.
  intros H1 H2 H3. unfold design_empennage. do 3 step_prompt.
  assert (E : ar_hs * (p_hs / 100.0 * 0) = 0) by ring.
  assert (H0 : 0 <= ar_hs * (p_hs / 100.0 * 0)) by lra.
  step_sqrt. apply lift_bind_raise, truediv_zero.
  rewrite E, sqrt_0. ring.
Qed.

(** C4 as stated fails.  A wingspan of 0 is accepted by the prompt of
    [design_wing], which then raises [ZeroDivisionError]; so does an aspect
    ratio of 0; and the batch [main] raises [ZeroDivisionError] on a
    configuration with wingspan 0 and on one with aspect ratio 0. *)
Lemma zero_input_reaches_division :
  get_float None None None [Numeric 0; Numeric 8; Numeric 1]
  = Ok (0, [Numeric 8; Numeric 1]) /\
  design_wing [Numeric 0; Numeric 8; Numeric 1] = Raise ZeroDivisionError /\
  design_wing [Numeric 1200; Numeric 0; Numeric 1] = Raise ZeroDivisionError /\
  Interactive.main [Garbage; Numeric 0; Numeric 8; Numeric 1]
  = Raise ZeroDivisionError /\
  Batch.main {[ "wingspan"%string := JInt 0; "aspect_ratio"%string := JInt 8 ]}
  = Raise ZeroDivisionError /\
  Batch.main
    {[ "wingspan"%string := JInt 1200; "aspect_ratio"%string := JInt 0 ]}
  = Raise ZeroDivisionError.
Proof.
  split; [apply get_float_numeric; split; exact I |].
  split; [apply design_wing_zero; left; reflexivity |].
  split; [apply design_wing_zero; right; reflexivity |].
  split; [apply interactive_main_zero; left; reflexivity |].
  split.
  - destruct (config_defaults
                {[ "wingspan"%string := JInt 0;
                   "aspect_ratio"%string := JInt 8 ]})
      as (Hw & _); try reflexivity.
    apply (main_zero _ 0 8 2.0); try assumption.
    + apply (config_number_supplied _ _ (JInt 0)); reflexivity.
    + apply (config_number_supplied _ _ (JInt 8)); reflexivity.
    + left; reflexivity.
  - destruct (config_defaults
                {[ "wingspan"%string := JInt 1200;
                   "aspect_ratio"%string := JInt 0 ]})
      as (Hw & _); try reflexivity.
    apply (main_zero _ 1200 0 2.0); try assumption.
    + apply (config_number_supplied _ _ (JInt 1200)); reflexivity.
    + apply (config_number_supplied _ _ (JInt 0)); reflexivity.
    + right; reflexivity.
Qed.

(** C4, as the code has it.  Neither calculator tests the wingspan or the
    aspect ratio: when one of them is zero (and the span is below 10^150 in
    magnitude, so that its square does not overflow a double) the wing
    formulas are evaluated and the first division by zero raises
    [ZeroDivisionError], in [design_wing] (and with it the interactive
    [main]), in [calc_wing_geometry] and in the batch [main], whatever the
    configuration holds as taper ratio (its wingspan, aspect ratio and
    weight being numbers below 10^150 in magnitude); the run ends on that
    exception with no value computed.  With a wing area of zero
    [design_empennage] raises [ZeroDivisionError] at the root chord of the
    horizontal stabilizer.  The batch tail functions refuse nothing either:
    [tail_areas] of a zero wing area is (0, 0), and [calc_tail_geometry]
    returns zero chords for a zero tail area (on a span between 10^-100
    and 10^100 and a taper ratio between 0 and 10^100). *)
Theorem zero_span_or_aspect_ratio_raises :
  (forall (span AR taper : R) (rest : list line),
      span = 0 \/ AR = 0 -> Rabs span <= 10 ^ 150 ->
      design_wing (Numeric span :: Numeric AR :: Numeric taper :: rest)
      = Raise ZeroDivisionError /\
      forall answer : line,
        Interactive.main
          (answer :: Numeric span :: Numeric AR :: Numeric taper :: rest)
        = Raise ZeroDivisionError) /\
  (forall b AR taper : R,
      b = 0 \/ AR = 0 -> Rabs b <= 10 ^ 150 ->
      calc_wing_geometry b AR taper = Raise ZeroDivisionError) /\
  (forall (input : gmap string json) (ws ar wt : R),
      config_number input "wingspan" = Ok ws ->
      config_number input "aspect_ratio" = Ok ar ->
      config_number input "weight" = Ok wt ->
      ws = 0 \/ ar = 0 ->
      Rabs ws <= 10 ^ 150 -> Rabs ar <= 10 ^ 150 -> Rabs wt <= 10 ^ 150 ->
      Batch.main input = Raise ZeroDivisionError) /\
  (forall (p_hs ar_hs t_hs : R) (rest : list line),
      18 <= p_hs <= 20 -> 1 <= ar_hs <= 20 -> 0.05 <= t_hs <= 1.5 ->
      design_empennage 0
        (Numeric p_hs :: Numeric ar_hs :: Numeric t_hs :: rest)
      = Raise ZeroDivisionError) /\
  tail_areas 0 = (0, 0) /\
  (forall span_tail taper : R,
      / 10 ^ 100 <= span_tail <= 10 ^ 100 -> 0 <= taper <= 10 ^ 100 ->
      calc_tail_geometry 0 span_tail taper = Ok (0, 0)).
Proof.
  split.
  { intros span AR taper rest H _.
    split; [apply design_wing_zero, H |].
    intros answer. apply interactive_main_zero, H. }
  split; [intros b AR taper H _; apply calc_wing_geometry_zero, H |].
  split.
  { intros input ws ar wt Hws Har Hwt H _ _ _.
    apply (main_zero input ws ar wt); assumption. }
  split; [exact design_empennage_zero_area |].
  split; [unfold tail_areas; f_equal; lra |].
  intros span_tail taper Hs Ht.
  assert (P : 0 < / 10 ^ 100) by (apply Rinv_0_lt_compat, pow_lt; lra).
  apply calc_tail_geometry_zero_area.
  apply Rmult_integral_contrapositive_currified; lra.
Qed.

Lemma zero_span_or_aspect_ratio_raises_witness :
  (((0 : R) = 0 \/ (8 : R) = 0) /\ Rabs 0 <= 10 ^ 150) /\
  calc_wing_geometry 0 8 0.6 = Raise ZeroDivisionError.
Proof.
  assert (Hb : Rabs 0 <= 10 ^ 150).
  { rewrite Rabs_R0. apply pow_le. lra. }
  split; [split; [left; reflexivity | exact Hb] |].
  apply (proj1 (proj2 zero_span_or_aspect_ratio_raises) 0 8 0.6);
    [left; reflexivity | exact Hb].
Defined.

(** * Further properties *)

(** ** The prompt loop *)

Lemma get_float_cons (lo hi d : option R) (raw : line) (rest : list line) :
  get_float lo hi d (raw :: rest)
  = match Prompt.answer lo hi d raw with
    | Some v => Ok (v, rest)
    | None => get_float lo hi d rest
    end.
Proof.
  unfold Prompt.answer. simpl.
  destruct (parse d raw) as [val |]; [| reflexivity].
  destruct (out_of_range lo hi val); reflexivity.
Qed.

(** X1.  [get_float] returns the number of the first line it does not refuse,
    and leaves exactly the lines after that one to be read. *)
Theorem get_float_first_accepted
  (lo hi d : option R) (inp rest : list line) (v : R) :
  get_float lo hi d inp = Ok (v, rest) <->
  exists skipped raw,
    inp = skipped ++ raw :: rest /\
    Forall (fun l => Prompt.answer lo hi d l = None) skipped /\
    Prompt.answer lo hi d raw = Some v.
Proof.
  split.
  - induction inp as [| l inp IH]; [discriminate |].
    rewrite get_float_cons.
    destruct (Prompt.answer lo hi d l) as [x |] eqn:E.
    + intros [= <- <-]. exists [], l.
      split; [reflexivity |]. split; [constructor | exact E].
    + intros H. destruct (IH H) as (skipped & raw & -> & Hs & Hr).
      exists (l :: skipped), raw.
      split; [reflexivity |]. split; [constructor; assumption | assumption].
  - intros (skipped & raw & -> & Hs & Hr).
    induction Hs as [| l skipped Hl _ IH]; simpl app; rewrite get_float_cons.
    + rewrite Hr. reflexivity.
    + rewrite Hl. exact IH.
Qed.

(** X2.  The only exception [get_float] raises is [EOFError], and it raises it
    exactly when every line left is refused. *)
Theorem get_float_raises_only_eof
  (lo hi d : option R) (inp : list line) (e : exn) :
  get_float lo hi d inp = Raise e <->
  e = EOFError /\ Forall (fun l => Prompt.answer lo hi d l = None) inp.
Proof.
  induction inp as [| l inp IH].
  - simpl. split.
    + intros [= <-]. split; [reflexivity | constructor].
    + intros [-> _]. reflexivity.
  - rewrite get_float_cons.
    destruct (Prompt.answer lo hi d l) as [x |] eqn:E.
    + split; [discriminate |]. intros [_ H]. inversion H; congruence.
    + rewrite IH. split.
      * intros [-> H]. split; [reflexivity | constructor; assumption].
      * intros [-> H]. inversion H; subst. split; [reflexivity | assumption].
Qed.

Lemma get_float_shorter (lo hi d : option R) (inp rest : list line) (v : R) :
  get_float lo hi d inp = Ok (v, rest) ->
  (List.length rest < List.length inp)%nat /\ suffix rest inp.
Proof.
  induction inp as [| l inp IH]; [discriminate |].
  rewrite get_float_cons.
  destruct (Prompt.answer lo hi d l) as [x |].
  - intros [= _ <-]. split; [simpl; lia | apply suffix_cons_r; reflexivity].
  - intros H. destruct (IH H) as [Hl Hs].
    split; [simpl; lia | apply suffix_cons_r, Hs].
Qed.

Lemma get_float_raise_eof (lo hi d : option R) (inp : list line) (e : exn) :
  get_float lo hi d inp = Raise e -> e = EOFError.
Proof.
  induction inp as [| l inp IH]; [intros [= <-]; reflexivity |].
  rewrite get_float_cons.
  destruct (Prompt.answer lo hi d l); [discriminate | exact IH].
Qed.

(** A prompt in the middle of a run: either the input ends there, and the
    run ends on [EOFError], or a number in range comes back. *)
Ltac prompt_cases v Hv :=
  lazymatch goal with
  | |- context [ (get_float ?lo ?hi ?d ≫= ?k) ?inp ] =>
      let mid := fresh "mid" in
      let e := fresh "e" in
      let E := fresh "E" in
      destruct (get_float lo hi d inp) as [[v mid] | e] eqn:E;
      [ rewrite (io_bind_ok _ _ _ _ _ E);
        apply get_float_in_range in E as Hv;
        unfold in_range in Hv; simpl in Hv; clear E
      | rewrite (io_bind_raise _ _ _ _ E);
        apply get_float_raise_eof in E; subst e ]
  end.

(** ** The wing, further *)

(** X3.  [design_wing] tests neither sign nor range.  A taper ratio of -1
    makes the divisor of the root chord zero: whatever the span (up to
    10^150 in magnitude, beyond which its square can overflow) and the
    aspect ratio, the run raises [ZeroDivisionError].  A negative span is
    computed with: on span -1200, aspect ratio 8 and taper ratio 0.6 the
    wing returned has the area 180000 and the chords -187.5 and -112.5. *)
Theorem design_wing_tests_no_sign :
  (forall (span AR : R) (rest : list line),
      Rabs span <= 10 ^ 150 ->
      design_wing (Numeric span :: Numeric AR :: Numeric (-1) :: rest)
      = Raise ZeroDivisionError) /\
  (forall rest : list line,
      design_wing (Numeric (-1200) :: Numeric 8 :: Numeric 0.6 :: rest)
      = Ok (mkWing (-1200) 8 0.6 180000 (-153.125) (-187.5) (-112.5), rest)).
Proof.
  split.
  - intros span AR rest _.
    destruct (decide (AR = 0)) as [Ha | Ha];
      [apply design_wing_zero; right; exact Ha |].
    unfold design_wing. do 3 step_prompt. step_div.
    apply lift_bind_raise, truediv_zero. ring.
  - intros rest. rewrite design_wing_run by lra.
    do 2 f_equal. f_equal; lra.
Qed.

Lemma design_wing_tests_no_sign_witness :
  Rabs 1200 <= 10 ^ 150 /\
  design_wing [Numeric 1200; Numeric 8; Numeric (-1)]
  = Raise ZeroDivisionError.
Proof.
  assert (H : Rabs 1200 <= 10 ^ 150).
  { rewrite Rabs_pos_eq by lra.
    apply Rle_trans with (10 ^ 4); [lra |].
    apply Rle_pow; [lra | lia]. }
  split; [exact H |].
  exact (proj1 design_wing_tests_no_sign 1200 8 [] H).
Defined.

(** X4.  What the real numbers do not show, on the doubles: the square of a
    span of 1e200 is beyond them, and [design_wing] and
    [calc_wing_geometry] raise [OverflowError] at [span ** 2]; the square of
    a span of 1e-200 is below them, and both functions return an area and
    chords of 0. *)
Theorem wing_overflow_and_underflow_in_doubles :
  Binary64.design_wing 1e200 8 1 = Raise OverflowError /\
  Binary64.calc_wing_geometry 1e200 8 1 = Raise OverflowError /\
  Binary64.design_wing 1e-200 8 1 = Ok (0, 0, 0, 0)%float /\
  Binary64.calc_wing_geometry 1e-200 8 1 = Ok (0, 0, 0, 0)%float.
Proof.
  repeat split; vm_compute; reflexivity.
Qed.

(** What a returning run of [design_wing] read and divided by. *)
Lemma design_wing_inv (inp rest : list line) (w : Wing) :
  design_wing inp = Ok (w, rest) ->
  span w <> 0 /\ AR w <> 0 /\ 1 + taper_ratio w <> 0 /\
  wing_area w = span w ^ 2 / AR w /\
  c_root w = 2 * wing_area w / (span w * (1 + taper_ratio w)) /\
  c_tip w = taper_ratio w * c_root w /\
  Interactive.MAC w
  = 4 * wing_area w / (3 * span w)
    * ((1 + taper_ratio w + taper_ratio w ^ 2) / (1 + taper_ratio w) ^ 2).
Proof.
  unfold design_wing. intros H. invert_run H.
  cbn [span AR taper_ratio wing_area c_root c_tip Interactive.MAC].
  match goal with
  | Hd : ?s * (1 + ?t) <> 0 |- _ =>
      assert (Hs : s <> 0) by (intros E; apply Hd; rewrite E; ring);
      assert (Ht : 1 + t <> 0) by (intros E; apply Hd; rewrite E; ring)
  end.
  repeat split; try assumption; try reflexivity.
  decimals. field. repeat split; assumption.
Qed.

(** X5.  The mean aerodynamic chord [design_wing] returns is the one its
    comment gives in terms of the root chord,
    MAC = (2/3) Cr (1 + t + t^2) / (1 + t). *)
Theorem design_wing_mac_from_root (inp rest : list line) (w : Wing) :
  design_wing inp = Ok (w, rest) ->
  Interactive.MAC w
  = 2 / 3 * c_root w * (1 + taper_ratio w + taper_ratio w ^ 2)
    / (1 + taper_ratio w).
Proof.
  intros H.
  destruct (design_wing_inv _ _ _ H) as (Hs & Ha & Ht & HS & Hr & _ & HM).
  rewrite HM, Hr. field. repeat split; assumption.
Qed.

Lemma design_wing_mac_from_root_witness :
  design_wing [Numeric 1200; Numeric 8; Numeric 0.6]
  = Ok (mkWing 1200 8 0.6 (1200 ^ 2 / 8)
          (4.0 * (1200 ^ 2 / 8) / (3.0 * 1200)
           * ((1 + 0.6 + 0.6 ^ 2) / (1 + 0.6) ^ 2))
          (2 * (1200 ^ 2 / 8) / (1200 * (1 + 0.6)))
          (0.6 * (2 * (1200 ^ 2 / 8) / (1200 * (1 + 0.6)))), []) /\
  4.0 * (1200 ^ 2 / 8) / (3.0 * 1200)
  * ((1 + 0.6 + 0.6 ^ 2) / (1 + 0.6) ^ 2)
  = 2 / 3 * (2 * (1200 ^ 2 / 8) / (1200 * (1 + 0.6)))
    * (1 + 0.6 + 0.6 ^ 2) / (1 + 0.6).
Proof.
  assert (H : design_wing [Numeric 1200; Numeric 8; Numeric 0.6]
              = Ok (mkWing 1200 8 0.6 (1200 ^ 2 / 8)
                      (4.0 * (1200 ^ 2 / 8) / (3.0 * 1200)
                       * ((1 + 0.6 + 0.6 ^ 2) / (1 + 0.6) ^ 2))
                      (2 * (1200 ^ 2 / 8) / (1200 * (1 + 0.6)))
                      (0.6 * (2 * (1200 ^ 2 / 8) / (1200 * (1 + 0.6)))), []))
    by (apply design_wing_run; lra).
  split; [exact H |].
  exact (design_wing_mac_from_root _ _ _ H).
Defined.

(** X6.  The example of the specification on the doubles: on span 1200,
    aspect ratio 8 and taper ratio 0.6 both programs compute the area
    180000 and the chords 187.5 and 112.5 without any rounding error; the
    mean aerodynamic chord is 150 in the batch program and
    153.12499999999997, for 153.125, in the interactive one. *)
Theorem wing_example_in_doubles :
  Binary64.design_wing 1200 8 0.6
  = Ok (180000, 153.12499999999997, 187.5, 112.5)%float /\
  Binary64.calc_wing_geometry 1200 8 0.6
  = Ok (180000, 150, 187.5, 112.5)%float.
Proof.
  split; vm_compute; reflexivity.
Qed.





(** ** Units *)

(** X9.  Lengths scale: with the span multiplied by [k], [calc_wing_geometry]
    returns the area multiplied by [k^2] and the chords by [k].  With
    [k = 1000] this is the passage from metres to millimetres. *)
Theorem calc_wing_geometry_scales (k b AR taper S MAC Cr Ct : R) :
  k <> 0 ->
  Batch.calc_wing_geometry b AR taper = Ok (S, MAC, Cr, Ct) ->
  Batch.calc_wing_geometry (k * b) AR taper
  = Ok (k ^ 2 * S, k * MAC, k * Cr, k * Ct).
Proof.
  intros Hk H.
  unfold Batch.calc_wing_geometry in H.
  apply result_bind_inv in H as (S' & H1 & H).
  apply result_bind_inv in H as (M' & H2 & H).
  apply result_bind_inv in H as (C' & H3 & H).
  injection H as <- <- <- <-.
  apply truediv_inv in H1 as [Ha ->].
  apply truediv_inv in H2 as [Hb ->].
  apply truediv_inv in H3 as [Hd ->].
  assert (Ht : 1 + taper <> 0) by (intros E; apply Hd; rewrite E; ring).
  rewrite calc_wing_geometry_run
    by (try assumption; apply Rmult_integral_contrapositive_currified;
        assumption).
  do 2 f_equal; [do 2 f_equal |]; field; repeat split; assumption.
Qed.

Lemma calc_wing_geometry_scales_witness :
  (1000 : R) <> 0 /\
  Batch.calc_wing_geometry 1.2 8 0.6
  = Ok (1.2 ^ 2 / 8, 1.2 ^ 2 / 8 / 1.2, 2 * (1.2 ^ 2 / 8) / (1.2 * (1 + 0.6)),
        0.6 * (2 * (1.2 ^ 2 / 8) / (1.2 * (1 + 0.6)))) /\
  Batch.calc_wing_geometry (1000 * 1.2) 8 0.6
  = Ok (1000 ^ 2 * (1.2 ^ 2 / 8), 1000 * (1.2 ^ 2 / 8 / 1.2),
        1000 * (2 * (1.2 ^ 2 / 8) / (1.2 * (1 + 0.6))),
        1000 * (0.6 * (2 * (1.2 ^ 2 / 8) / (1.2 * (1 + 0.6))))).
Proof.
  assert (H : Batch.calc_wing_geometry 1.2 8 0.6
              = Ok (1.2 ^ 2 / 8, 1.2 ^ 2 / 8 / 1.2,
                    2 * (1.2 ^ 2 / 8) / (1.2 * (1 + 0.6)),
                    0.6 * (2 * (1.2 ^ 2 / 8) / (1.2 * (1 + 0.6)))))
    by (apply calc_wing_geometry_run; lra).
  split; [lra |]. split; [exact H |].
  apply (calc_wing_geometry_scales 1000 1.2 8 0.6); [lra | exact H].
Defined.

(** ** The batch run, in general *)

Lemma stall_speed_gen (W rho S CLmax : R) :
  rho * S <> 0 ->
  Batch.stall_speed W rho S CLmax = Ok (Batch.np_sqrt (2 * W / (rho * S))).
Proof.
  intros H. unfold Batch.stall_speed. step_pure_div. reflexivity.
Qed.

(** The run of [main] on any configuration whose seven numeric entries
    are numbers, with wingspan and aspect ratio other than 0 and taper
    ratios other than -1. *)
Lemma main_run_gen (input : gmap string json) (ws ar wt cl t tH tV : R) :
  config_number input "wingspan" = Ok ws ->
  config_number input "aspect_ratio" = Ok ar ->
  config_number input "weight" = Ok wt ->
  config_number input "cl_max" = Ok cl ->
  config_number input "taper_ratio" = Ok t ->
  config_number input "tail_taper_H" = Ok tH ->
  config_number input "tail_taper_V" = Ok tV ->
  ws <> 0 -> ar <> 0 -> 1 + t <> 0 -> 1 + tH <> 0 -> 1 + tV <> 0 ->
  let b := ws / 1000 in
  let S := b ^ 2 / ar in
  let MAC := S / b in
  let C_root := 2 * S / (b * (1 + t)) in
  let SH := 0.19 * S in
  let SV := 0.095 * S in
  let Lf := 0.675 * b in
  let Hf := 0.125 * Lf in
  let Wf := 0.2 * Hf in
  let b_H := 0.4 * b in
  let C_root_H := 2 * SH / (b_H * (1 + tH)) in
  let C_root_V := 2 * SV / (Hf * (1 + tV)) in
  let CD := 0.02 + cl ^ 2 / (PI * 0.8 * ar) in
  Batch.main input
  = Ok (mkDesign S MAC C_root (t * C_root) SH SV Lf Hf Wf b_H Hf
          C_root_H (tH * C_root_H) C_root_V (tV * C_root_V)
          (0.5 * 1.225 * 10 ^ 2 * S * cl) (0.5 * 1.225 * 10 ^ 2 * S * CD) CD
          (np_sqrt (2 * (wt * 9.81) / (1.225 * S)))
          ((0.4 * MAC - 0.3 * MAC) / MAC) (0.25 * MAC)
          (0.3 * MAC) (0.4 * MAC)).
Proof.
  intros Hws Har Hwt Hcl Ht HtH HtV Pws Par Pt PtH PtV.
  intros b S MAC C_root SH SV Lf Hf Wf b_H C_root_H C_root_V CD.
  apply config_number_inv in Har as (ar_v & Har & Har').
  apply config_number_inv in Hcl as (cl_v & Hcl & Hcl').
  apply config_number_inv in Ht as (t_v & Ht & Ht').
  unfold config_number in Hws, Hwt, HtH, HtV.
  assert (Pb : b <> 0) by (unfold b; lra).
  assert (PS : S <> 0).
  { unfold S, Rdiv. apply Rmult_integral_contrapositive_currified;
      [apply pow_nonzero, Pb | apply Rinv_neq_0_compat, Par]. }
  assert (PM : MAC <> 0).
  { unfold MAC, Rdiv. apply Rmult_integral_contrapositive_currified;
      [exact PS | apply Rinv_neq_0_compat, Pb]. }
  unfold Batch.main. cbv zeta.
  rewrite (result_bind_ok _ _ _ Hws).
  rewrite (result_bind_ok _ _ _ Har).
  rewrite (result_bind_ok _ _ _ Hwt).
  rewrite (result_bind_ok _ _ _ Hcl).
  rewrite (result_bind_ok _ _ _ Ht).
  rewrite (result_bind_ok _ _ _ Har').
  rewrite (calc_wing_geometry_config_number _ _ _ _ Ht').
  erewrite result_bind_ok by (apply calc_wing_geometry_run; assumption).
  cbv beta iota zeta delta [tail_areas fuselage_dimensions].
  rewrite (result_bind_ok _ _ _ HtH).
  erewrite result_bind_ok
    by (apply calc_tail_geometry_run;
        apply Rmult_integral_contrapositive_currified;
        [fold b; lra | exact PtH]).
  cbv beta iota.
  rewrite (result_bind_ok _ _ _ HtV).
  erewrite result_bind_ok
    by (apply calc_tail_geometry_run;
        apply Rmult_integral_contrapositive_currified;
        [fold b; lra | exact PtV]).
  cbv beta iota.
  rewrite (result_bind_ok _ _ _ Hcl').
  erewrite result_bind_ok by (apply calc_aerodynamics_run; [lra | exact Par]).
  cbv beta iota.
  erewrite result_bind_ok
    by (apply stall_speed_gen; fold b S;
        apply Rmult_integral_contrapositive_currified; [lra | exact PS]).
  erewrite result_bind_ok by (apply stability_run; fold b S MAC; exact PM).
  reflexivity.
Qed.

Lemma calc_tail_geometry_inv (S_tail span_tail taper Cr Ct : R) :
  calc_tail_geometry S_tail span_tail taper = Ok (Cr, Ct) ->
  span_tail <> 0 /\ 1 + taper <> 0.
Proof.
  unfold calc_tail_geometry. intros H.
  apply result_bind_inv in H as (C' & H1 & _).
  apply truediv_inv in H1 as [Hd _].
  split; intros E; apply Hd; rewrite E; ring.
Qed.

Lemma calc_wing_geometry_taper (b AR taper S MAC C_root C_tip : R) :
  calc_wing_geometry b AR taper = Ok (S, MAC, C_root, C_tip) ->
  1 + taper <> 0.
Proof.
  unfold calc_wing_geometry. intros H.
  apply result_bind_inv in H as (S' & _ & H).
  apply result_bind_inv in H as (M' & _ & H).
  apply result_bind_inv in H as (C' & H3 & _).
  apply truediv_inv in H3 as [Hd _].
  intros E; apply Hd; rewrite E; ring.
Qed.

Lemma calc_wing_geometry_config_inv
  (b AR : R) (v : json) (r : R * R * R * R) :
  calc_wing_geometry_config b AR v = Ok r ->
  exists t, as_number v = Ok t /\ calc_wing_geometry b AR t = Ok r.
Proof.
  unfold calc_wing_geometry_config.
  destruct (as_number v) as [t | e].
  - intros H. exists t. split; [reflexivity | exact H].
  - intros H.
    apply result_bind_inv in H as (S & _ & H).
    apply result_bind_inv in H as (M & _ & H). discriminate H.
Qed.

(** What a returning run of [main] found in its configuration. *)
Lemma main_inv (input : gmap string json) (d : Design) :
  Batch.main input = Ok d ->
  exists ws ar wt cl t tH tV : R,
    config_number input "wingspan" = Ok ws /\
    config_number input "aspect_ratio" = Ok ar /\
    config_number input "weight" = Ok wt /\
    config_number input "cl_max" = Ok cl /\
    config_number input "taper_ratio" = Ok t /\
    config_number input "tail_taper_H" = Ok tH /\
    config_number input "tail_taper_V" = Ok tV /\
    ws <> 0 /\ ar <> 0 /\ 1 + t <> 0 /\ 1 + tH <> 0 /\ 1 + tV <> 0.
Proof.
  unfold Batch.main. cbv zeta. intros H.
  apply result_bind_inv in H as (ws & Hws & H).
  apply result_bind_inv in H as (ar_v & Har & H).
  apply result_bind_inv in H as (wt & Hwt & H).
  apply result_bind_inv in H as (cl_v & Hcl & H).
  apply result_bind_inv in H as (t_v & Ht & H).
  apply result_bind_inv in H as (ar & Har' & H).
  apply result_bind_inv in H as ([[[S MAC] Cr] Ct] & Hwing & H).
  apply calc_wing_geometry_config_inv in Hwing as (t & Ht' & Hwing).
  cbv beta iota zeta delta [tail_areas fuselage_dimensions] in H.
  apply result_bind_inv in H as (tH & HtH & H).
  apply result_bind_inv in H as ([CrH CtH] & HtailH & H).
  cbv beta iota in H.
  apply result_bind_inv in H as (tV & HtV & H).
  apply result_bind_inv in H as ([CrV CtV] & HtailV & H).
  cbv beta iota in H.
  apply result_bind_inv in H as (cl & Hcl' & _).
  exists ws, ar, wt, cl, t, tH, tV.
  pose proof (calc_wing_geometry_inv _ _ _ _ _ _ _ Hwing) as (Hb & Ha & _).
  pose proof (calc_wing_geometry_taper _ _ _ _ _ _ _ Hwing) as Pt.
  pose proof (calc_tail_geometry_inv _ _ _ _ _ HtailH) as (_ & PtH).
  pose proof (calc_tail_geometry_inv _ _ _ _ _ HtailV) as (_ & PtV).
  unfold config_number.
  rewrite Har, Hcl, Ht.
  repeat split; try assumption.
  intros E. apply Hb. rewrite E. lra.
Qed.

(** X10.  The batch [main] reaches the end of its computations only on a
    configuration whose seven numeric entries, once the defaults are filled
    in, are numbers, with a wingspan and an aspect ratio other than 0. *)
Theorem main_returns_only_on_numbers
  (input : gmap string json) (d : Design) :
  Batch.main input = Ok d ->
  exists ws ar wt cl t tH tV : R,
    config_number input "wingspan" = Ok ws /\
    config_number input "aspect_ratio" = Ok ar /\
    config_number input "weight" = Ok wt /\
    config_number input "cl_max" = Ok cl /\
    config_number input "taper_ratio" = Ok t /\
    config_number input "tail_taper_H" = Ok tH /\
    config_number input "tail_taper_V" = Ok tV /\
    ws <> 0 /\ ar <> 0.
Proof.
  intros H.
  destruct (main_inv _ _ H)
    as (ws & ar & wt & cl & t & tH & tV & H1 & H2 & H3 & H4 & H5 & H6 & H7
        & Pw & Pa & _).
  exists ws, ar, wt, cl, t, tH, tV.
  repeat split; assumption.
Qed.

Lemma main_returns_only_on_numbers_witness :
  exists d,
    Batch.main
      {[ "wingspan"%string := JInt 1200; "aspect_ratio"%string := JInt 8 ]}
    = Ok d /\
    exists ws ar wt cl t tH tV : R,
      config_number
        {[ "wingspan"%string := JInt 1200; "aspect_ratio"%string := JInt 8 ]}
        "wingspan" = Ok ws /\
      config_number
        {[ "wingspan"%string := JInt 1200; "aspect_ratio"%string := JInt 8 ]}
        "aspect_ratio" = Ok ar /\
      config_number
        {[ "wingspan"%string := JInt 1200; "aspect_ratio"%string := JInt 8 ]}
        "weight" = Ok wt /\
      config_number
        {[ "wingspan"%string := JInt 1200; "aspect_ratio"%string := JInt 8 ]}
        "cl_max" = Ok cl /\
      config_number
        {[ "wingspan"%string := JInt 1200; "aspect_ratio"%string := JInt 8 ]}
        "taper_ratio" = Ok t /\
      config_number
        {[ "wingspan"%string := JInt 1200; "aspect_ratio"%string := JInt 8 ]}
        "tail_taper_H" = Ok tH /\
      config_number
        {[ "wingspan"%string := JInt 1200; "aspect_ratio"%string := JInt 8 ]}
        "tail_taper_V" = Ok tV /\
      ws <> 0 /\ ar <> 0.
Proof.
  destruct main_minimal_run as (d & Hd & _).
  exists d. split; [exact Hd |].
  exact (main_returns_only_on_numbers _ d Hd).
Defined.



(** X12.  The conversion to millimetres undoes the division of the wingspan by
    1000: the wing, tail and fuselage values [main] reports in millimetres
    are the formulas applied to the wingspan in millimetres as the
    configuration gives it. *)
Theorem main_millimetres_from_wingspan
  (input : gmap string json) (d : Design) (ws ar t : R) :
  Batch.main input = Ok d ->
  config_number input "wingspan" = Ok ws ->
  config_number input "aspect_ratio" = Ok ar ->
  config_number input "taper_ratio" = Ok t ->
  let m := Report.to_mm d in
  Report.S_mm2 m = ws ^ 2 / ar /\
  Report.MAC_mm m = ws / ar /\
  Report.C_root_mm m = 2 * Report.S_mm2 m / (ws * (1 + t)) /\
  Report.C_tip_mm m = t * Report.C_root_mm m /\
  Report.SH_mm2 m = 0.19 * Report.S_mm2 m /\
  Report.SV_mm2 m = 0.095 * Report.S_mm2 m /\
  Report.Lf_mm m = 0.675 * ws /\
  Report.Hf_mm m = 0.125 * Report.Lf_mm m /\
  Report.Wf_mm m = 0.2 * Report.Hf_mm m.
Proof.
  intros H Hws Har Ht.
  destruct (main_inv _ _ H)
    as (ws' & ar' & wt & cl & t' & tH & tV & H1 & H2 & H3 & H4 & H5 & H6 & H7
        & Pw & Pa & Pt & PtH & PtV).
  rewrite Hws in H1. injection H1 as <-.
  rewrite Har in H2. injection H2 as <-.
  rewrite Ht in H5. injection H5 as <-.
  rewrite (main_run_gen input ws ar wt cl t tH tV) in H by assumption.
  injection H as <-. unfold Report.to_mm.
  cbn [Report.S_mm2 Report.MAC_mm Report.C_root_mm Report.C_tip_mm
       Report.SH_mm2 Report.SV_mm2 Report.Lf_mm Report.Hf_mm Report.Wf_mm
       Batch.S Batch.MAC C_root C_tip SH SV Lf Hf Wf].
  repeat split; decimals; field; repeat split; assumption.
Qed.

Lemma minimal_config_numbers :
  let input : gmap string json :=
    {[ "wingspan"%string := JInt 1200; "aspect_ratio"%string := JInt 8 ]} in
  config_number input "wingspan" = Ok 1200 /\
  config_number input "aspect_ratio" = Ok 8 /\
  config_number input "taper_ratio" = Ok 1.0.
Proof.
  intros input.
  destruct (config_defaults input) as (_ & _ & Ht & _); try reflexivity.
  split; [apply (config_number_supplied _ _ (JInt 1200)); reflexivity |].
  split; [apply (config_number_supplied _ _ (JInt 8)); reflexivity |].
  exact Ht.
Qed.

Lemma main_millimetres_from_wingspan_witness :
  exists d,
    Batch.main
      {[ "wingspan"%string := JInt 1200; "aspect_ratio"%string := JInt 8 ]}
    = Ok d /\
    Report.S_mm2 (Report.to_mm d) = 1200 ^ 2 / 8 /\
    Report.MAC_mm (Report.to_mm d) = 1200 / 8.
Proof.
  destruct main_minimal_run as (d & Hd & _).
  destruct minimal_config_numbers as (Hw & Ha & Ht).
  exists d. split; [exact Hd |].
  destruct (main_millimetres_from_wingspan _ d 1200 8 1.0 Hd Hw Ha Ht)
    as (H1 & H2 & _).
  split; [exact H1 | exact H2].
Defined.



(** ** What the batch run requires and what it lets through *)

Lemma load_input_other_key (input : gmap string json) (key : string) :
  input !! key = None -> key ∉ DEFAULTS.*1 -> load_input input !! key = None.
Proof.
  intros Hk Hd. rewrite load_input_union. apply lookup_union_None_2.
  - exact Hk.
  - apply not_elem_of_list_to_map_1, Hd.
Qed.

Lemma not_a_default_key (key : string) :
  bool_decide (key ∈ DEFAULTS.*1) = false -> key ∉ DEFAULTS.*1.
Proof.
  intros H. apply bool_decide_eq_false in H. exact H.
Qed.

(** X14.  The wingspan and the aspect ratio have no default: [main] raises
    [KeyError] when the configuration lacks one of them, and [TypeError]
    when the wingspan it gives is not a number. *)
Theorem main_needs_wingspan_and_aspect_ratio (input : gmap string json) :
  (input !! "wingspan"%string = None -> Batch.main input = Raise KeyError) /\
  (forall ws : R,
      config_number input "wingspan" = Ok ws ->
      input !! "aspect_ratio"%string = None ->
      Batch.main input = Raise KeyError) /\
  (forall v : json,
      input !! "wingspan"%string = Some v ->
      as_number v = Raise TypeError ->
      Batch.main input = Raise TypeError).
Proof.
  split; [| split].
  - intros H. unfold Batch.main. cbv zeta.
    apply result_bind_raise. unfold getitem.
    rewrite (load_input_other_key _ _ H); [reflexivity |].
    apply not_a_default_key. vm_compute. reflexivity.
  - intros ws Hws H. unfold Batch.main. cbv zeta.
    unfold config_number in Hws. rewrite (result_bind_ok _ _ _ Hws).
    apply result_bind_raise. unfold getitem.
    rewrite (load_input_other_key _ _ H); [reflexivity |].
    apply not_a_default_key. vm_compute. reflexivity.
  - intros v H Hv. unfold Batch.main. cbv zeta.
    apply result_bind_raise. unfold getitem.
    rewrite (load_input_present _ _ _ H). exact Hv.
Qed.

Lemma main_needs_wingspan_and_aspect_ratio_witness :
  ((∅ : gmap string json) !! "wingspan"%string = None /\
   Batch.main ∅ = Raise KeyError) /\
  (({[ "wingspan"%string := JStr "wide" ]} : gmap string json)
     !! "wingspan"%string = Some (JStr "wide") /\
   as_number (JStr "wide") = Raise TypeError /\
   Batch.main {[ "wingspan"%string := JStr "wide" ]} = Raise TypeError).
Proof.
  split.
  - split; [reflexivity |].
    apply (proj1 (main_needs_wingspan_and_aspect_ratio ∅)). reflexivity.
  - split; [reflexivity |]. split; [reflexivity |].
    apply (proj2 (proj2 (main_needs_wingspan_and_aspect_ratio
                           {[ "wingspan"%string := JStr "wide" ]}))
             (JStr "wide")); reflexivity.
Defined.



(** X16.  No sign is tested either.  On a wingspan of 1200 and an aspect
    ratio of 8 with a weight of -2, and on a wingspan of 1200 with an
    aspect ratio of -8 and the default weight, [main] returns, and the
    stall speed it reports is not a number: the square root is taken of a
    negative number. *)
Theorem main_stall_speed_nan :
  (exists d,
      Batch.main
        {[ "wingspan"%string := JInt 1200; "aspect_ratio"%string := JInt 8;
           "weight"%string := JInt (-2) ]}
      = Ok d /\
      Vstall d = NaN) /\
  (exists d,
      Batch.main
        {[ "wingspan"%string := JInt 1200;
           "aspect_ratio"%string := JInt (-8) ]}
      = Ok d /\
      Vstall d = NaN).
Proof.
  assert (Hdef : forall (input : gmap string json) (key : string) (x : R),
             input !! key = None -> (key, JFloat x) ∈ DEFAULTS ->
             config_number input key = Ok x).
  { intros input key x Hk Hin.
    apply (config_number_default _ _ (JFloat x)); [exact Hk | exact Hin |].
    reflexivity. }
  split.
  - eexists. split.
    + apply (main_run_gen _ 1200 8 (-2) 1.4 1.0 1.0 1.0); try lra.
      * apply (config_number_supplied _ _ (JInt 1200)); reflexivity.
      * apply (config_number_supplied _ _ (JInt 8)); reflexivity.
      * apply (config_number_supplied _ _ (JInt (-2))); reflexivity.
      * apply Hdef; [reflexivity |].
        unfold DEFAULTS; rewrite !elem_of_cons; auto 10.
      * apply Hdef; [reflexivity |].
        unfold DEFAULTS; rewrite !elem_of_cons; auto 10.
      * apply Hdef; [reflexivity |].
        unfold DEFAULTS; rewrite !elem_of_cons; auto 10.
      * apply Hdef; [reflexivity |].
        unfold DEFAULTS; rewrite !elem_of_cons; auto 10.
    + cbn [Vstall]. unfold np_sqrt.
      match goal with
      | |- context [decide (?q < 0)] => destruct (decide (q < 0)) as [L | L]
      end; [reflexivity | exfalso; apply L; lra].
  - eexists. split.
    + apply (main_run_gen _ 1200 (-8) 2.0 1.4 1.0 1.0 1.0); try lra.
      * apply (config_number_supplied _ _ (JInt 1200)); reflexivity.
      * apply (config_number_supplied _ _ (JInt (-8))); reflexivity.
      * apply Hdef; [reflexivity |].
        unfold DEFAULTS; rewrite !elem_of_cons; auto 10.
      * apply Hdef; [reflexivity |].
        unfold DEFAULTS; rewrite !elem_of_cons; auto 10.
      * apply Hdef; [reflexivity |].
        unfold DEFAULTS; rewrite !elem_of_cons; auto 10.
      * apply Hdef; [reflexivity |].
        unfold DEFAULTS; rewrite !elem_of_cons; auto 10.
      * apply Hdef; [reflexivity |].
        unfold DEFAULTS; rewrite !elem_of_cons; auto 10.
    + cbn [Vstall]. unfold np_sqrt.
      match goal with
      | |- context [decide (?q < 0)] => destruct (decide (q < 0)) as [L | L]
      end; [reflexivity | exfalso; apply L; lra].
Qed.

(** ** Aerodynamics, further *)

(** X17.  [calc_aerodynamics] tests neither the Oswald efficiency nor the
    aspect ratio: when one of them is 0 (and the speed, the lift
    coefficient, the efficiency and the aspect ratio are below 10^150 in
    magnitude, so that no square or product overflows) it raises
    [ZeroDivisionError].  When it returns, drag times lift coefficient
    equals lift times drag coefficient (the lift-to-drag ratio is CL / CD),
    and the drag coefficient is at least the zero-lift one if efficiency
    and aspect ratio have the same sign. *)
Theorem calc_aerodynamics_outcomes (rho V S CL CD0 AR e : R) :
  (e = 0 \/ AR = 0 ->
   Rabs V <= 10 ^ 150 -> Rabs CL <= 10 ^ 150 ->
   Rabs e <= 10 ^ 150 -> Rabs AR <= 10 ^ 150 ->
   calc_aerodynamics rho V S CL CD0 AR e = Raise ZeroDivisionError) /\
  (forall lift drag dragCoeff : R,
      calc_aerodynamics rho V S CL CD0 AR e = Ok (lift, drag, dragCoeff) ->
      drag * CL = lift * dragCoeff /\
      (0 < e * AR -> CD0 <= dragCoeff)).
Proof.
  split.
  - intros Z _ _ _ _. unfold calc_aerodynamics.
    apply result_bind_raise, truediv_zero.
    destruct Z as [-> | ->]; ring.
  - intros lift drag dragCoeff H.
    assert (N : e <> 0 /\ AR <> 0).
    { split; intros Z; subst;
        unfold calc_aerodynamics in H;
        rewrite (result_bind_raise _ _ ZeroDivisionError) in H;
        try discriminate H; apply truediv_zero; ring. }
    destruct N as [He Ha].
    rewrite calc_aerodynamics_run in H by assumption.
    injection H as <- <- <-.
    split; [ring |].
    intros Hpos.
    assert (Hd : 0 < PI * e * AR).
    { rewrite Rmult_assoc.
      apply Rmult_lt_0_compat; [apply PI_RGT_0 | exact Hpos]. }
    assert (Hq : 0 <= CL ^ 2 / (PI * e * AR)).
    { apply Rmult_le_pos; [apply pow2_ge_0 |].
      left. apply Rinv_0_lt_compat, Hd. }
    lra.
Qed.

Lemma calc_aerodynamics_outcomes_witness :
  (((0 : R) = 0 \/ (8 : R) = 0) /\ Rabs 10 <= 10 ^ 150 /\
   Rabs 1.4 <= 10 ^ 150 /\ Rabs 0 <= 10 ^ 150 /\ Rabs 8 <= 10 ^ 150) /\
  calc_aerodynamics 1.225 10 0.18 1.4 0.02 8 0 = Raise ZeroDivisionError.
Proof.
  assert (B : forall x : R, 0 <= x <= 10 -> Rabs x <= 10 ^ 150).
  { intros x Hx. rewrite Rabs_pos_eq by lra.
    apply Rle_trans with (10 ^ 1); [lra |]. apply Rle_pow; [lra | lia]. }
  assert (H1 : Rabs 10 <= 10 ^ 150) by (apply B; lra).
  assert (H2 : Rabs 1.4 <= 10 ^ 150) by (apply B; lra).
  assert (H3 : Rabs 0 <= 10 ^ 150) by (apply B; lra).
  assert (H4 : Rabs 8 <= 10 ^ 150) by (apply B; lra).
  split; [split; [left; reflexivity | tauto] |].
  apply (proj1 (calc_aerodynamics_outcomes 1.225 10 0.18 1.4 0.02 8 0));
    [left; reflexivity | exact H1 | exact H2 | exact H3 | exact H4].
Defined.

(** X18.  A more slender wing has less induced drag: at a lift coefficient other
    than 0 and a positive Oswald efficiency, the drag coefficient
    [calc_aerodynamics] returns is strictly decreasing in the (positive)
    aspect ratio. *)
Theorem drag_coefficient_decreasing_in_aspect_ratio
  (rho V S CL CD0 AR1 AR2 e : R) :
  CL <> 0 -> 0 < e -> 0 < AR1 -> AR1 < AR2 ->
  exists L1 D1 CD1 L2 D2 CD2,
    calc_aerodynamics rho V S CL CD0 AR1 e = Ok (L1, D1, CD1) /\
    calc_aerodynamics rho V S CL CD0 AR2 e = Ok (L2, D2, CD2) /\
    L1 = L2 /\ CD2 < CD1.
Proof.
  intros Hc He H1 Hlt.
  do 6 eexists.
  split; [apply calc_aerodynamics_run; lra |].
  split; [apply calc_aerodynamics_run; lra |].
  split; [reflexivity |].
  assert (P1 : 0 < PI * e * AR1).
  { apply Rmult_lt_0_compat; [| exact H1].
    apply Rmult_lt_0_compat; [apply PI_RGT_0 | exact He]. }
  assert (P2 : 0 < PI * e * AR2).
  { apply Rmult_lt_0_compat; [| lra].
    apply Rmult_lt_0_compat; [apply PI_RGT_0 | exact He]. }
  assert (Pc : 0 < CL ^ 2).
  { pose proof (pow2_ge_0 CL). pose proof (pow_nonzero CL 2 Hc). lra. }
  assert (Hi : / (PI * e * AR2) < / (PI * e * AR1)).
  { apply Rinv_lt_contravar; [apply Rmult_lt_0_compat; assumption |].
    apply Rmult_lt_compat_l; [| exact Hlt].
    apply Rmult_lt_0_compat; [apply PI_RGT_0 | exact He]. }
  unfold Rdiv. apply Rplus_lt_compat_l, Rmult_lt_compat_l; assumption.
Qed.

Lemma drag_coefficient_decreasing_in_aspect_ratio_witness :
  ((1.4 : R) <> 0 /\ 0 < 0.8 /\ 0 < 6 /\ 6 < 8) /\
  exists L1 D1 CD1 L2 D2 CD2,
    calc_aerodynamics 1.225 10 0.18 1.4 0.02 6 0.8 = Ok (L1, D1, CD1) /\
    calc_aerodynamics 1.225 10 0.18 1.4 0.02 8 0.8 = Ok (L2, D2, CD2) /\
    L1 = L2 /\ CD2 < CD1.
Proof.
  split; [lra |].
  apply (drag_coefficient_decreasing_in_aspect_ratio
           1.225 10 0.18 1.4 0.02 6 8 0.8); lra.
Defined.

(** ** Stall speed, further *)

(** X19.  What the speed [stall_speed] returns means: it is the speed at which a
    lift coefficient of 1, not the maximum lift coefficient passed, gives a
    lift equal to the weight. *)
Theorem stall_speed_balances_unit_lift (W rho S CLmax CD0 AR e : R) :
  0 <= W -> 0 < rho -> 0 < S -> e <> 0 -> AR <> 0 ->
  exists v lift drag dragCoeff,
    stall_speed W rho S CLmax = Ok (Finite v) /\ 0 <= v /\
    calc_aerodynamics rho v S 1 CD0 AR e = Ok (lift, drag, dragCoeff) /\
    lift = W.
Proof.
  intros Hw Hr Hs He Ha.
  assert (Hd : 0 < rho * S) by (apply Rmult_lt_0_compat; assumption).
  assert (Hq : 0 <= 2 * W / (rho * S)).
  { apply Rmult_le_pos; [lra |]. left. apply Rinv_0_lt_compat, Hd. }
  do 4 eexists.
  split; [apply stall_speed_run; assumption |].
  split; [apply sqrt_pos |].
  split; [apply calc_aerodynamics_run; assumption |].
  rewrite pow2_sqrt by exact Hq. decimals. field. split; lra.
Qed.

Lemma stall_speed_balances_unit_lift_witness :
  (0 <= 19.62 /\ 0 < 1.225 /\ 0 < 0.18 /\ (0.8 : R) <> 0 /\ (8 : R) <> 0) /\
  exists v lift drag dragCoeff,
    stall_speed 19.62 1.225 0.18 1.4 = Ok (Finite v) /\ 0 <= v /\
    calc_aerodynamics 1.225 v 0.18 1 0.02 8 0.8
    = Ok (lift, drag, dragCoeff) /\
    lift = 19.62.
Proof.
  split; [lra |].
  apply (stall_speed_balances_unit_lift 19.62 1.225 0.18 1.4 0.02 8 0.8); lra.
Defined.

(** X20.  [stall_speed] tests nothing: with a density or a wing area of 0 it
    raises [ZeroDivisionError], whatever the weight; with a negative weight
    (-19.62 N, at density 1.225 and wing area 0.18) it returns NaN without
    raising. *)
Theorem stall_speed_outcomes :
  (forall W rho S CLmax : R,
      rho = 0 \/ S = 0 ->
      stall_speed W rho S CLmax = Raise ZeroDivisionError) /\
  (forall CLmax : R, stall_speed (-19.62) 1.225 0.18 CLmax = Ok NaN).
Proof.
  split.
  - intros W rho S CLmax Z.
    apply result_bind_raise, truediv_zero.
    destruct Z as [-> | ->]; ring.
  - intros CLmax. rewrite stall_speed_gen by lra. unfold np_sqrt.
    match goal with
    | |- context [decide (?q < 0)] => destruct (decide (q < 0)) as [L | L]
    end; [reflexivity | exfalso; apply L; lra].
Qed.

Lemma stall_speed_outcomes_witness :
  ((0 : R) = 0 \/ (0.18 : R) = 0) /\
  stall_speed 19.62 0 0.18 1.4 = Raise ZeroDivisionError.
Proof.
  split; [left; reflexivity |].
  apply (proj1 stall_speed_outcomes 19.62 0 0.18 1.4). left. reflexivity.
Defined.

(** ** Loading the configuration, further *)

(** X21.  Loading is idempotent: completing a configuration that [load_input]
    has already completed changes nothing. *)
Theorem load_input_idempotent (data : gmap string json) :
  load_input (load_input data) = load_input data.
Proof.
  rewrite !load_input_union.
  rewrite <- (assoc_L (∪)). rewrite (idemp_L (∪)). reflexivity.
Qed.

(** X22.  [load_input] adds the eight default keys and no other: a key is
    present in what it returns exactly when the configuration had it or it
    is one of the eight. *)
Theorem load_input_keys (data : gmap string json) (key : string) :
  is_Some (load_input data !! key) <->
  is_Some (data !! key) \/
  key ∈ [ "weight"; "cl_max"; "taper_ratio"; "tail_taper_H"; "tail_taper_V";
          "motor_kv"; "battery_voltage"; "propeller" ]%string.
Proof.
  rewrite load_input_union, lookup_union_is_Some.
  change [ "weight"; "cl_max"; "taper_ratio"; "tail_taper_H"; "tail_taper_V";
           "motor_kv"; "battery_voltage"; "propeller" ]%string
    with (DEFAULTS.*1).
  split; (intros [H | H]; [left; exact H | right]).
  - destruct H as [v Hv]. apply elem_of_list_to_map_2 in Hv.
    apply (list_elem_of_fmap_2 fst) in Hv. exact Hv.
  - destruct (list_to_map DEFAULTS !! key) as [v |] eqn:E; [eauto |].
    apply not_elem_of_list_to_map_2 in E. contradiction.
Qed.

(** ** The tail surfaces, further *)

Lemma sqrt_factor_nonzero (x y : R) : 0 <= x -> sqrt x * y <> 0 -> 0 < x.
Proof.
  intros Hx Hn. destruct Hx as [Hx | <-]; [exact Hx |].
  exfalso. apply Hn. rewrite sqrt_0. ring.
Qed.

(** What a returning run of [design_empennage] read: eight numbers within
    the bounds of their prompts, and a wing area that is positive. *)
Lemma design_empennage_inv
  (wing_area : R) (inp rest : list line) (e : Empennage) :
  design_empennage wing_area inp = Ok (e, rest) ->
  exists p_hs ar_hs t_hs p_el p_vs ar_vs t_vs p_rd : R,
    18 <= p_hs <= 20 /\ 1 <= ar_hs <= 20 /\ 0.05 <= t_hs <= 1.5 /\
    25 <= p_el <= 50 /\
    9 <= p_vs <= 10 /\ 1 <= ar_vs <= 10 /\ 0.05 <= t_vs <= 1.5 /\
    25 <= p_rd <= 50 /\
    0 < wing_area /\
    let S_hs := p_hs / 100.0 * wing_area in
    let b_hs := sqrt (ar_hs * S_hs) in
    let c_hs := 2 * S_hs / (b_hs * (1 + t_hs)) in
    let S_vs := p_vs / 100.0 * wing_area in
    let b_vs := sqrt (ar_vs * S_vs) in
    let c_vs := 2 * S_vs / (b_vs * (1 + t_vs)) in
    e = mkEmpennage
          (mkHStab S_hs b_hs c_hs (t_hs * c_hs) (p_el / 100.0 * S_hs)
             p_hs p_el)
          (mkVStab S_vs b_vs c_vs (t_vs * c_vs) (p_rd / 100.0 * S_vs)
             p_vs p_rd).
Proof.
  unfold design_empennage. intros H. invert_run H.
  exists v, v0, v1, v2, v3, v4, v5, v6.
  assert (Hx : 0 < v0 * (v / 100.0 * wing_area))
    by (eapply sqrt_factor_nonzero; eassumption).
  assert (Hw : 0 < wing_area).
  { destruct (Rle_or_lt wing_area 0) as [Hle | Hlt]; [| exact Hlt].
    exfalso.
    assert (v / 100.0 * wing_area <= 0).
    { rewrite <- (Rmult_0_r (v / 100.0)). apply Rmult_le_compat_l; lra. }
    assert (v0 * (v / 100.0 * wing_area) <= 0).
    { rewrite <- (Rmult_0_r v0). apply Rmult_le_compat_l; lra. }
    lra. }
  repeat (split; [lra |]). reflexivity.
Qed.

(** X23.  With a wing area of at least 1 (square millimetre)
    [design_empennage] cannot fail on what is typed: whatever the input,
    it returns or the input ends ([EOFError]).  The bounds of its prompts
    keep every square root and every division defined. *)
Theorem design_empennage_returns_or_eof (wing_area : R) (inp : list line) :
  1 <= wing_area ->
  (exists e rest, design_empennage wing_area inp = Ok (e, rest)) \/
  design_empennage wing_area inp = Raise EOFError.
Proof.
  intros Hw1. assert (Hw : 0 < wing_area) by lra.
  unfold design_empennage.
  prompt_cases p_hs H1; [| right; reflexivity].
  prompt_cases ar_hs H2; [| right; reflexivity].
  prompt_cases t_hs H3; [| right; reflexivity].
  assert (Ph : 0 < ar_hs * (p_hs / 100.0 * wing_area)).
  { apply Rmult_lt_0_compat; [lra |]. apply Rmult_lt_0_compat; lra. }
  erewrite lift_bind_ok by (apply math_sqrt_ok; lra).
  erewrite lift_bind_ok
    by (apply truediv_ok, Rmult_integral_contrapositive_currified;
        [apply Rgt_not_eq, sqrt_lt_R0, Ph | lra]).
  prompt_cases p_el H4; [| right; reflexivity].
  prompt_cases p_vs H5; [| right; reflexivity].
  prompt_cases ar_vs H6; [| right; reflexivity].
  prompt_cases t_vs H7; [| right; reflexivity].
  assert (Pv : 0 < ar_vs * (p_vs / 100.0 * wing_area)).
  { apply Rmult_lt_0_compat; [lra |]. apply Rmult_lt_0_compat; lra. }
  erewrite lift_bind_ok by (apply math_sqrt_ok; lra).
  erewrite lift_bind_ok
    by (apply truediv_ok, Rmult_integral_contrapositive_currified;
        [apply Rgt_not_eq, sqrt_lt_R0, Pv | lra]).
  prompt_cases p_rd H8; [| right; reflexivity].
  left. do 2 eexists. reflexivity.
Qed.

Lemma design_empennage_returns_or_eof_witness :
  1 <= 180000 /\
  exists e rest,
    design_empennage 180000
      [Garbage; Numeric 19; Numeric 4; Numeric 0.5; Numeric 30;
       Numeric 9.5; Numeric 1.5; Numeric 0.5; Numeric 30]
    = Ok (e, rest).
Proof.
  split; [lra |].
  destruct (design_empennage_returns_or_eof 180000
              [Garbage; Numeric 19; Numeric 4; Numeric 0.5; Numeric 30;
               Numeric 9.5; Numeric 1.5; Numeric 0.5; Numeric 30]
              ltac:(lra)) as [H | H]; [exact H |].
  exfalso.
  change (design_empennage 180000
            [Numeric 19; Numeric 4; Numeric 0.5; Numeric 30;
             Numeric 9.5; Numeric 1.5; Numeric 0.5; Numeric 30]
          = Raise EOFError) in H.
  rewrite design_empennage_run in H by lra. discriminate H.
Defined.

(** X24.  On answers within the ranges of its prompts and a wing area of at
    least 1, [design_empennage] returns the percentages as read, an
    elevator and a rudder that are the percentages read of their
    stabilizer, and stabilizers whose aspect ratio span^2 / area is the one
    read. *)
Theorem design_empennage_control_surfaces
  (wing_area p_hs ar_hs t_hs p_el p_vs ar_vs t_vs p_rd : R)
  (rest : list line) :
  1 <= wing_area ->
  18 <= p_hs <= 20 -> 1 <= ar_hs <= 20 -> 0.05 <= t_hs <= 1.5 ->
  25 <= p_el <= 50 ->
  9 <= p_vs <= 10 -> 1 <= ar_vs <= 10 -> 0.05 <= t_vs <= 1.5 ->
  25 <= p_rd <= 50 ->
  exists e,
    design_empennage wing_area
      (Numeric p_hs :: Numeric ar_hs :: Numeric t_hs :: Numeric p_el ::
       Numeric p_vs :: Numeric ar_vs :: Numeric t_vs :: Numeric p_rd :: rest)
    = Ok (e, rest) /\
    percent_hs (HS e) = p_hs /\ percent_elev (HS e) = p_el /\
    percent_vs (VS e) = p_vs /\ percent_rudder (VS e) = p_rd /\
    hs_Elevator (HS e) = p_el / 100 * hs_S (HS e) /\
    vs_Rudder (VS e) = p_rd / 100 * vs_S (VS e) /\
    hs_span (HS e) ^ 2 = ar_hs * hs_S (HS e) /\
    vs_span (VS e) ^ 2 = ar_vs * vs_S (VS e).
Proof.
  intros Hw H1 H2 H3 H4 H5 H6 H7 H8.
  assert (Hw0 : 0 < wing_area) by lra.
  eexists. split; [apply design_empennage_run; assumption |].
  cbn [HS VS hs_S hs_span hs_Elevator vs_S vs_span vs_Rudder
       percent_hs percent_elev percent_vs percent_rudder].
  do 4 (split; [reflexivity |]).
  split; [lra |]. split; [lra |].
  assert (Ph : 0 <= ar_hs * (p_hs / 100.0 * wing_area)).
  { apply Rmult_le_pos; [lra |]. apply Rmult_le_pos; lra. }
  assert (Pv : 0 <= ar_vs * (p_vs / 100.0 * wing_area)).
  { apply Rmult_le_pos; [lra |]. apply Rmult_le_pos; lra. }
  split; apply pow2_sqrt; assumption.
Qed.

Lemma design_empennage_control_surfaces_witness :
  (1 <= 180000 /\ 18 <= 19 <= 20 /\ 25 <= 30 <= 50) /\
  exists e,
    design_empennage 180000
      [Numeric 19; Numeric 4; Numeric 0.5; Numeric 30;
       Numeric 9.5; Numeric 1.5; Numeric 0.5; Numeric 30]
    = Ok (e, []) /\
    percent_hs (HS e) = 19 /\ percent_elev (HS e) = 30 /\
    percent_vs (VS e) = 9.5 /\ percent_rudder (VS e) = 30 /\
    hs_Elevator (HS e) = 30 / 100 * hs_S (HS e) /\
    vs_Rudder (VS e) = 30 / 100 * vs_S (VS e) /\
    hs_span (HS e) ^ 2 = 4 * hs_S (HS e) /\
    vs_span (VS e) ^ 2 = 1.5 * vs_S (VS e).
Proof.
  split; [lra |].
  apply (design_empennage_control_surfaces 180000 19 4 0.5 30 9.5 1.5 0.5 30
           []); lra.
Defined.

(** ** Fuselage and static margin, further *)

(** X25.  Whatever is typed, [design_fuselage] returns or the input ends.  On
    two answers within the ranges of its prompts it returns them with the
    length, the first percentage of the span, and the height, the second
    percentage of the length. *)
Theorem design_fuselage_from_percentages (span : R) :
  (forall inp : list line,
      (exists f rest, design_fuselage span inp = Ok (f, rest)) \/
      design_fuselage span inp = Raise EOFError) /\
  (forall (p_len p_h : R) (rest : list line),
      60 <= p_len <= 75 -> 10 <= p_h <= 15 ->
      exists f,
        design_fuselage span (Numeric p_len :: Numeric p_h :: rest)
        = Ok (f, rest) /\
        percent_len f = p_len /\ percent_h f = p_h /\
        Interactive.length f = p_len / 100 * span /\
        height f = p_h / 100 * Interactive.length f).
Proof.
  split.
  - intros inp. unfold design_fuselage.
    prompt_cases p_len H1; [| right; reflexivity].
    prompt_cases p_h H2; [| right; reflexivity].
    left. do 2 eexists. reflexivity.
  - intros p_len p_h rest H1 H2. eexists. split.
    + unfold design_fuselage. do 2 step_prompt. reflexivity.
    + cbn [percent_len percent_h Interactive.length height].
      repeat split; lra.
Qed.

Lemma design_fuselage_from_percentages_witness :
  (60 <= 70 <= 75 /\ 10 <= 12 <= 15) /\
  exists f,
    design_fuselage 1200 [Numeric 70; Numeric 12] = Ok (f, []) /\
    percent_len f = 70 /\ percent_h f = 12 /\
    Interactive.length f = 70 / 100 * 1200 /\
    height f = 12 / 100 * Interactive.length f.
Proof.
  split; [lra |].
  apply (proj2 (design_fuselage_from_percentages 1200) 70 12 []); lra.
Defined.

(** X26.  Whatever is typed, [cg_and_static_margin] returns or the input ends.
    On two answers within the ranges of its prompts it returns them, a
    static margin between -75 and 40 %, and two positions that differ by
    that margin of the mean chord; an empty first line stands for a neutral
    point at 30 %. *)
Theorem cg_and_static_margin_from_percentages (MAC_mm : R) :
  (forall inp : list line,
      (exists r rest, cg_and_static_margin MAC_mm inp = Ok (r, rest)) \/
      cg_and_static_margin MAC_mm inp = Raise EOFError) /\
  (forall (np cg : R) (rest : list line),
      25 <= np <= 40 -> 0 <= cg <= 100 ->
      exists r,
        cg_and_static_margin MAC_mm (Numeric np :: Numeric cg :: rest)
        = Ok (r, rest) /\
        NP_percent r = np /\ CG_percent r = cg /\
        -75 <= SM_percent r <= 40 /\
        NP_mm r - CG_mm r = SM_percent r / 100 * MAC_mm) /\
  (forall (cg : R) (rest : list line),
      0 <= cg <= 100 ->
      exists r,
        cg_and_static_margin MAC_mm (Empty :: Numeric cg :: rest)
        = Ok (r, rest) /\
        NP_percent r = 30 /\ CG_percent r = cg).
Proof.
  split; [| split].
  - intros inp. unfold cg_and_static_margin.
    prompt_cases np H1; [| right; reflexivity].
    prompt_cases cg H2; [| right; reflexivity].
    left. do 2 eexists. reflexivity.
  - intros np cg rest H1 H2.
    eexists. split; [apply cg_and_static_margin_run; assumption |].
    cbn [NP_percent CG_percent SM_percent NP_mm CG_mm].
    repeat split; lra.
  - intros cg rest H.
    eexists. split; [apply cg_and_static_margin_default; assumption |].
    cbn [NP_percent CG_percent]. split; [lra | reflexivity].
Qed.

Lemma cg_and_static_margin_from_percentages_witness :
  (25 <= 30 <= 40 /\ 0 <= 25 <= 100) /\
  exists r,
    cg_and_static_margin 150 [Numeric 30; Numeric 25] = Ok (r, []) /\
    NP_percent r = 30 /\ CG_percent r = 25 /\
    -75 <= SM_percent r <= 40 /\
    NP_mm r - CG_mm r = SM_percent r / 100 * 150.
Proof.
  split; [lra |].
  apply (proj1 (proj2 (cg_and_static_margin_from_percentages 150))
           30 25 []); lra.
Defined.

(** ** The interactive run as a whole *)

(** Counting the lines a run consumed: each prompt takes at least one. *)
Ltac count_step H :=
  let a := fresh "a" in
  let mid := fresh "mid" in
  let Hm := fresh "Hlen" in
  apply io_bind_inv in H as (a & mid & Hm & H);
  first
    [ apply lift_inv in Hm as [_ ->]
    | apply get_float_shorter in Hm as [Hm _] ].

Ltac count_run H :=
  repeat count_step H;
  injection H as _ <-.

Lemma design_wing_consumes (inp rest : list line) (w : Wing) :
  design_wing inp = Ok (w, rest) ->
  (3 + List.length rest <= List.length inp)%nat.
Proof.
  unfold design_wing. intros H. count_run H. lia.
Qed.

Lemma design_empennage_consumes
  (wing_area : R) (inp rest : list line) (e : Empennage) :
  design_empennage wing_area inp = Ok (e, rest) ->
  (8 + List.length rest <= List.length inp)%nat.
Proof.
  unfold design_empennage. intros H. count_run H. lia.
Qed.

Lemma design_fuselage_consumes
  (span : R) (inp rest : list line) (f : Fuselage) :
  design_fuselage span inp = Ok (f, rest) ->
  (2 + List.length rest <= List.length inp)%nat.
Proof.
  unfold design_fuselage. intros H. count_run H. lia.
Qed.

Lemma cg_and_static_margin_consumes
  (MAC_mm : R) (inp rest : list line) (r : CGMargin) :
  cg_and_static_margin MAC_mm inp = Ok (r, rest) ->
  (2 + List.length rest <= List.length inp)%nat.
Proof.
  unfold cg_and_static_margin. intros H. count_run H. lia.
Qed.

Lemma airfoil_input_inv (inp rest : list line) (s : string) :
  airfoil_input inp = Ok (s, rest) -> exists raw, inp = raw :: rest.
Proof.
  destruct inp as [| raw inp]; [discriminate |].
  intros [= _ <-]. exists raw. reflexivity.
Qed.

(** X27.  The steps of the interactive [main] are chained as they should be: in
    a run that returns, the stabilizer areas are the percentages read of
    the area of the wing just designed, the fuselage length the percentage
    read of its span, and the positions of neutral point and centre of
    gravity the percentages read of its mean aerodynamic chord.  Such a run
    read at least sixteen lines. *)
Theorem interactive_main_chains_steps (inp rest : list line) (r : Results) :
  Interactive.main inp = Ok (r, rest) ->
  let w := r_Wing r in
  let e := r_Empennage r in
  hs_S (HS e) = percent_hs (HS e) / 100 * wing_area w /\
  vs_S (VS e) = percent_vs (VS e) / 100 * wing_area w /\
  Interactive.length (r_Fuselage r)
  = percent_len (r_Fuselage r) / 100 * span w /\
  NP_mm (r_CG_StaticMargin r)
  = NP_percent (r_CG_StaticMargin r) / 100 * Interactive.MAC w /\
  CG_mm (r_CG_StaticMargin r)
  = CG_percent (r_CG_StaticMargin r) / 100 * Interactive.MAC w /\
  (16 + List.length rest <= List.length inp)%nat.
Proof.
  unfold Interactive.main. intros H.
  apply io_bind_inv in H as (airfoil & i1 & Hair & H).
  apply io_bind_inv in H as (w & i2 & Hwing & H).
  apply io_bind_inv in H as (e & i3 & Hemp & H).
  apply io_bind_inv in H as (f & i4 & Hfus & H).
  apply io_bind_inv in H as (cg & i5 & Hcg & H).
  injection H as <- <-. cbn [r_Wing r_Empennage r_Fuselage r_CG_StaticMargin].
  apply airfoil_input_inv in Hair as [raw ->].
  pose proof (design_wing_consumes _ _ _ Hwing) as C1.
  pose proof (design_empennage_consumes _ _ _ _ Hemp) as C2.
  pose proof (design_fuselage_consumes _ _ _ _ Hfus) as C3.
  pose proof (cg_and_static_margin_consumes _ _ _ _ Hcg) as C4.
  destruct (design_empennage_inv _ _ _ _ Hemp)
    as (p_hs & ar_hs & t_hs & p_el & p_vs & ar_vs & t_vs & p_rd
        & _ & _ & _ & _ & _ & _ & _ & _ & _ & He).
  cbv zeta in He. subst e.
  unfold design_fuselage in Hfus. invert_run Hfus.
  unfold cg_and_static_margin in Hcg. invert_run Hcg.
  cbn [HS VS hs_S vs_S percent_hs percent_vs Interactive.length percent_len
       NP_mm CG_mm NP_percent CG_percent].
  repeat split; try lra. simpl List.length. lia.
Qed.

Lemma design_fuselage_run (span p_len p_h : R) (rest : list line) :
  60 <= p_len <= 75 -> 10 <= p_h <= 15 ->
  design_fuselage span (Numeric p_len :: Numeric p_h :: rest)
  = Ok (mkFuselage (p_len / 100.0 * span)
          (p_h / 100.0 * (p_len / 100.0 * span)) p_len p_h, rest).
Proof.
  intros H1 H2. unfold design_fuselage. do 2 step_prompt. reflexivity.
Qed.

(** A complete interactive session: any answer to the airfoil question,
    then fifteen numbers, positive for the wing and within the bounds of
    the other prompts. *)
Lemma interactive_main_run
  (answer : line) (span AR taper : R)
  (p_hs ar_hs t_hs p_el p_vs ar_vs t_vs p_rd p_len p_h np cg : R)
  (rest : list line) :
  0 < span -> 0 < AR -> 0 < taper ->
  18 <= p_hs <= 20 -> 1 <= ar_hs <= 20 -> 0.05 <= t_hs <= 1.5 ->
  25 <= p_el <= 50 ->
  9 <= p_vs <= 10 -> 1 <= ar_vs <= 10 -> 0.05 <= t_vs <= 1.5 ->
  25 <= p_rd <= 50 ->
  60 <= p_len <= 75 -> 10 <= p_h <= 15 ->
  25 <= np <= 40 -> 0 <= cg <= 100 ->
  exists r,
    Interactive.main
      (answer :: Numeric span :: Numeric AR :: Numeric taper ::
       Numeric p_hs :: Numeric ar_hs :: Numeric t_hs :: Numeric p_el ::
       Numeric p_vs :: Numeric ar_vs :: Numeric t_vs :: Numeric p_rd ::
       Numeric p_len :: Numeric p_h :: Numeric np :: Numeric cg :: rest)
    = Ok (r, rest).
Proof.
  intros Hs Ha Ht H1 H2 H3 H4 H5 H6 H7 H8 H9 H10 H11 H12.
  assert (PS : 0 < span ^ 2 / AR).
  { apply Rdiv_lt_0_compat; [apply pow_lt, Hs | exact Ha]. }
  eexists. unfold Interactive.main.
  erewrite io_bind_ok by reflexivity.
  erewrite io_bind_ok by (apply design_wing_run; lra).
  cbn [wing_area Interactive.span Interactive.MAC].
  erewrite io_bind_ok by (apply design_empennage_run; assumption).
  erewrite io_bind_ok by (apply design_fuselage_run; assumption).
  erewrite io_bind_ok by (apply cg_and_static_margin_run; assumption).
  reflexivity.
Qed.

Lemma interactive_main_chains_steps_witness :
  exists r,
    Interactive.main
      [Garbage; Numeric 1200; Numeric 8; Numeric 0.6;
       Numeric 19; Numeric 4; Numeric 0.5; Numeric 30;
       Numeric 9.5; Numeric 1.5; Numeric 0.5; Numeric 30;
       Numeric 70; Numeric 12; Numeric 30; Numeric 25]
    = Ok (r, []) /\
    hs_S (HS (r_Empennage r))
    = percent_hs (HS (r_Empennage r)) / 100 * wing_area (r_Wing r) /\
    vs_S (VS (r_Empennage r))
    = percent_vs (VS (r_Empennage r)) / 100 * wing_area (r_Wing r) /\
    Interactive.length (r_Fuselage r)
    = percent_len (r_Fuselage r) / 100 * span (r_Wing r).
Proof.
  destruct (interactive_main_run Garbage 1200 8 0.6 19 4 0.5 30 9.5 1.5 0.5
              30 70 12 30 25 [])
    as [r Hr]; try lra.
  exists r. split; [exact Hr |].
  destruct (interactive_main_chains_steps _ _ _ Hr) as (P1 & P2 & P3 & _).
  split; [exact P1 |]. split; [exact P2 | exact P3].
Defined.



(** ** Metres and millimetres in the interactive program *)

(** X29.  The two unit helpers agree with the wing formulas: for the wing
    [design_wing] returns, the area converted by [mm2_to_m2] (the square
    metres it prints) is the square of the span converted by [mm_to_m]
    over the aspect ratio, and the converted chords follow from the
    converted area and span by the chord formulas. *)
Theorem design_wing_in_metres (inp rest : list line) (w : Wing) :
  design_wing inp = Ok (w, rest) ->
  Units.mm2_to_m2 (wing_area w) = Units.mm_to_m (span w) ^ 2 / AR w /\
  Units.mm_to_m (c_root w)
  = 2 * Units.mm2_to_m2 (wing_area w)
    / (Units.mm_to_m (span w) * (1 + taper_ratio w)) /\
  Units.mm_to_m (c_tip w) = taper_ratio w * Units.mm_to_m (c_root w).
Proof.
  intros H.
  destruct (design_wing_inv _ _ _ H) as (Hs & Ha & Ht & HS & Hr & Hc & _).
  unfold Units.mm2_to_m2, Units.mm_to_m.
  rewrite Hc, Hr, HS. decimals.
  repeat split; field; repeat split; assumption.
Qed.

Lemma design_wing_in_metres_witness :
  exists w,
    design_wing [Numeric 1200; Numeric 8; Numeric 0.6] = Ok (w, []) /\
    Units.mm2_to_m2 (wing_area w) = Units.mm_to_m (span w) ^ 2 / AR w.
Proof.
  eexists. split; [apply design_wing_run; lra |].
  apply (design_wing_in_metres [Numeric 1200; Numeric 8; Numeric 0.6] []).
  apply design_wing_run; lra.
Defined.

(** ** The lift curve that is plotted *)

Lemma linspace_bounds (start stop : R) (n : nat) (x : R) :
  start <= stop -> (2 <= n)%nat ->
  x ∈ Plots.linspace start stop n -> start <= x <= stop.
Proof.
  intros Hle Hn Hx. unfold Plots.linspace in Hx.
  apply list_elem_of_fmap in Hx as (i & -> & Hi).
  apply elem_of_seq in Hi as [_ Hi].
  set (m := (n - 1)%nat) in *.
  assert (Pn : 0 < INR m) by (apply lt_0_INR; lia).
  assert (Hi0 : 0 <= INR i) by apply pos_INR.
  assert (Hi1 : INR i <= INR m) by (apply le_INR; lia).
  assert (Hs : 0 <= (stop - start) / INR m).
  { apply Rmult_le_pos; [lra |]. left. apply Rinv_0_lt_compat, Pn. }
  assert (E : INR m * ((stop - start) / INR m) = stop - start)
    by (field; lra).
  split.
  - pose proof (Rmult_le_pos _ _ Hi0 Hs). lra.
  - pose proof (Rmult_le_compat_r _ _ _ Hs Hi1). lra.
Qed.

(** X30.  The lift curve handed to the plot has fifty points, at angles of
    attack from -5 to 15 degrees, and for a maximum lift coefficient that
    is not negative every lift coefficient on it lies between 0 and that
    maximum, and never above 1.5: a maximum above 1.5 is never reached on
    the plot. *)
Theorem plot_lift_curve_within_limits (CLmax : R) :
  0 <= CLmax ->
  let (AoA, CL) := Plots.plot_lift_curve CLmax in
  List.length AoA = 50%nat /\ List.length CL = 50%nat /\
  Forall (fun a => -5 <= a <= 15) AoA /\
  Forall (fun c => 0 <= c <= CLmax /\ c <= 1.5) CL.
Proof.
  intros Hc. unfold Plots.plot_lift_curve.
  split.
  { unfold Plots.linspace. rewrite length_fmap, length_seq. reflexivity. }
  split.
  { rewrite !length_fmap. unfold Plots.linspace.
    rewrite length_fmap, length_seq. reflexivity. }
  split.
  - apply Forall_forall. intros a Ha.
    apply (linspace_bounds (-5) 15 50); [lra | lia | exact Ha].
  - apply Forall_fmap, Forall_fmap, Forall_forall. intros a Ha. simpl.
    apply (linspace_bounds (-5) 15 50) in Ha; [| lra | lia].
    unfold Plots.clip, Rmin, Rmax.
    destruct (Rle_dec (0.1 * a) 0) as [L | L];
      destruct (Rle_dec CLmax _) as [M | M]; lra.
Qed.

Lemma plot_lift_curve_within_limits_witness :
  0 <= 1.4 /\
  let (AoA, CL) := Plots.plot_lift_curve 1.4 in
  List.length AoA = 50%nat /\ List.length CL = 50%nat /\
  Forall (fun a => -5 <= a <= 15) AoA /\
  Forall (fun c => 0 <= c <= 1.4 /\ c <= 1.5) CL.
Proof.
  split; [lra |].
  apply (plot_lift_curve_within_limits 1.4). lra.
Defined.
